(** * Ideaconnect: the builder readiness evaluation engine of [app.py]

    A shallow embedding of the scoring helpers ([normalize_tech_stack],
    [compute_skill_match], [compute_answer_quality],
    [compute_final_readiness]), of [evaluate_builder] and of the three
    request handlers that mutate the in-memory list [IDEAS].

    Modelling choices, all stated where they are made:
    - a Python [float] is the rational number it denotes; every arithmetic
      operation computes the exact result and rounds it to the nearest
      binary64 value, ties to even ([Binary64.fl]);
    - a Python [str] is a [string] whose characters are the code points
      U+0000..U+00FF;
    - a decoded JSON document is a [pyval];
    - an exception is the [Raise] branch of [result]; the handlers run in
      a state-and-exception monad over the store. *)

From stdpp Require Import gmap strings list pretty.
From Stdlib Require Import Ascii ZArith QArith Qpower Qround Qabs Lia Lqa.
From Stdlib Require Floats.

(* ===================================================================== *)
(** * Part I: definitions                                                 *)
(* ===================================================================== *)

(** ** Binary64 arithmetic on the rationals *)

Module Binary64.

(** [ilog2 q] is the integer [e] with [2^e <= q < 2^(e+1)], for [0 < q]. *)
Definition ilog2 (q : Q) : Z :=
  let e0 := (Z.log2 (Qnum q) - Z.log2 (Zpos (Qden q)))%Z in
  if Qle_bool (2 ^ e0) q then e0 else (e0 - 1)%Z.

(** Nearest integer, ties to the even one. *)
Definition rne (q : Q) : Z :=
  let f := Qfloor q in
  match Qcompare (q - inject_Z f) (1 # 2) with
  | Lt => f
  | Gt => (f + 1)%Z
  | Eq => if Z.even f then f else (f + 1)%Z
  end.

(** Exponent of the unit in the last place of a positive [q]: 53 bits of
    precision, and never below the subnormal exponent -1074. *)
Definition ulp_exp (q : Q) : Z := Z.max (ilog2 q - 52) (-1074).

Definition fl_pos (q : Q) : Q :=
  let e := ulp_exp q in
  Qred (inject_Z (rne (q / 2 ^ e)) * 2 ^ e).

(** Rounding of an exact result to binary64 (round to nearest, ties to
    even). Overflow to infinity, NaN and the sign of zero are outside the
    model: no quantity of this program leaves the range of finite values. *)
Definition fl (q : Q) : Q :=
  match Qcompare q 0 with
  | Eq => 0
  | Gt => fl_pos q
  | Lt => - fl_pos (- q)
  end.

Definition fadd (x y : Q) : Q := fl (x + y).
Definition fmul (x y : Q) : Q := fl (x * y).
Definition fdiv (x y : Q) : Q := fl (x / y).

(** [round(x, nd)] of CPython on a float: the exact value is rounded to
    [nd] decimals, ties to even, and the decimal result is read back as
    the nearest binary64 value. *)
Definition round_nd (x : Q) (nd : Z) : Q :=
  fl (inject_Z (rne (x * 10 ^ nd)) / 10 ^ nd).

(** [min(a, b)] of Python: the first argument unless the second is
    strictly smaller. *)
Definition py_min (a b : Q) : Q := if Qlt_le_dec b a then b else a.

Definition ltb (a b : Q) : bool := if Qlt_le_dec a b then true else false.

End Binary64.

(** ** The kernel's binary64 numbers, to compare [Binary64] with *)

Module Hardware.
Import PrimFloat FloatOps SpecFloat.

(** The rational value of a finite primitive float. *)
Definition float_value (x : float) : Q :=
  match Prim2SF x with
  | S754_finite s m e =>
      (if s then - inject_Z (Zpos m) else inject_Z (Zpos m)) * 2 ^ e
  | _ => 0
  end.

(** Pairs of operands: the constants and intermediate values of the
    scoring helpers, and some values at the edges of the format. *)
#[warnings="-inexact-float"]
Definition samples : list (float * float) :=
  [(0.55, 1); (0.9, 0.45); (0.5, 0.55); (0.955, 10); (0.1, 0.2); (0.1, 3);
   (2.9, 4); (1, 3); (7, 10); (0.68, 10); (1e-300, 1e-10); (123456.789, 0.001);
   (0.2, 0.2); (0.9, 0.9); (1.7999999999999998, 0.9); (2.7, 0.2); (5e-324, 1e-300);
   (3, 7); (0.30000000000000004, 0.6); (96, 10); (955, 100);
   (0.25, 0.45); (9.55, 0.1); (4503599627370497, 3); (1e22, 7)]%float.

(** Product, sum and both quotients of a pair agree with [Binary64]. *)
Definition agrees (xy : float * float) : bool :=
  let x := fst xy in
  let y := snd xy in
  Qeq_bool (float_value (x * y)%float)
           (Binary64.fmul (float_value x) (float_value y))
  && Qeq_bool (float_value (x + y)%float)
              (Binary64.fadd (float_value x) (float_value y))
  && Qeq_bool (float_value (x / y)%float)
              (Binary64.fdiv (float_value x) (float_value y))
  && Qeq_bool (float_value (y / x)%float)
              (Binary64.fdiv (float_value y) (float_value x)).

End Hardware.

(** ** Python strings over the code points U+0000..U+00FF *)

Module PyStr.

(** [str.isspace] on a single character. *)
Definition isspace (c : ascii) : bool :=
  let n := N_of_ascii c in
  ((9 <=? n) && (n <=? 13) || (28 <=? n) && (n <=? 32)
   || (n =? 133) || (n =? 160))%N.

(** [str.lower] on a single character: A-Z, and the upper-case letters of
    U+00C0..U+00DE (the multiplication sign U+00D7 is not a letter). *)
Definition lower_char (c : ascii) : ascii :=
  let n := N_of_ascii c in
  if ((65 <=? n) && (n <=? 90)
      || (192 <=? n) && (n <=? 222) && negb (n =? 215))%N
  then ascii_of_N (n + 32) else c.

Fixpoint lower (s : string) : string :=
  match s with
  | EmptyString => EmptyString
  | String c r => String (lower_char c) (lower r)
  end.

Fixpoint lstrip (s : string) : string :=
  match s with
  | EmptyString => EmptyString
  | String c r => if isspace c then lstrip r else s
  end.

Fixpoint rstrip (s : string) : string :=
  match s with
  | EmptyString => EmptyString
  | String c r =>
      match rstrip r with
      | EmptyString => if isspace c then EmptyString else String c EmptyString
      | r' => String c r'
      end
  end.

(** [s.strip()] *)
Definition strip (s : string) : string := rstrip (lstrip s).

(** [s.split(sep)] for a one-character separator: never the empty list. *)
Fixpoint split (sep : ascii) (s : string) : list string :=
  match s with
  | EmptyString => [EmptyString]
  | String c r =>
      if Ascii.eqb c sep then EmptyString :: split sep r
      else match split sep r with
           | [] => [String c EmptyString]
           | w :: ws => String c w :: ws
           end
  end.

(** [sub in s] *)
Fixpoint contains (sub s : string) : bool :=
  String.prefix sub s ||
  match s with
  | EmptyString => false
  | String _ r => contains sub r
  end.

(** Truth value of a string: non-empty. *)
Definition truthy (s : string) : bool :=
  match s with
  | EmptyString => false
  | _ => true
  end.

(** [sep.join(parts)] *)
Fixpoint join (sep : string) (parts : list string) : string :=
  match parts with
  | [] => EmptyString
  | [p] => p
  | p :: ps => (p ++ sep ++ join sep ps)%string
  end.

Fixpoint repeat_char (c : ascii) (n : nat) : string :=
  match n with
  | O => EmptyString
  | S k => String c (repeat_char c k)
  end.

End PyStr.

(** ** Python values and exceptions *)

(** What [request.get_json()] can return, and what the generative client
    hands back: a decoded JSON document. A [PFloat] carries the rational
    value of a finite binary64 number. *)
#[warnings="-register-all"]
Inductive pyval : Type :=
| PNone
| PBool (b : bool)
| PInt (z : Z)
| PFloat (q : Q)
| PStr (s : string)
| PList (l : list pyval)
| PDict (d : list (string * pyval)).

Inductive exn : Type :=
| ZeroDivisionError
| TypeError
| ValueError
| KeyError
| IndexError
| AttributeError
| ExternalError.

(** The outcome of evaluating a Python expression. *)
Inductive result (A : Type) : Type :=
| Ok (a : A)
| Raise (e : exn).

Arguments Ok {A} a.
Arguments Raise {A} e.

Definition rbind {A B : Type} (r : result A) (k : A -> result B) : result B :=
  match r with
  | Ok a => k a
  | Raise e => Raise e
  end.

Fixpoint rmap {A B : Type} (f : A -> result B) (l : list A) : result (list B) :=
  match l with
  | [] => Ok []
  | a :: r =>
      rbind (f a) (fun b => rbind (rmap f r) (fun bs => Ok (b :: bs)))
  end.

Module PyRepr.

Definition dquote : ascii := ascii_of_N 34.
Definition squote : ascii := ascii_of_N 39.
Definition backslash : ascii := ascii_of_N 92.

Definition hex_digit (n : N) : ascii :=
  if (n <? 10)%N then ascii_of_N (48 + n) else ascii_of_N (87 + n).

Fixpoint has_char (c : ascii) (s : string) : bool :=
  match s with
  | EmptyString => false
  | String d r => Ascii.eqb c d || has_char c r
  end.

(** One character of [repr(s)]: the quote and the backslash are escaped,
    tab, newline and carriage return have their short escapes, and the
    other non-printable code points are written [\xNN]. *)
Definition repr_char (quote c : ascii) : string :=
  let n := N_of_ascii c in
  if Ascii.eqb c quote || Ascii.eqb c backslash
  then String backslash (String c EmptyString)
  else if (n =? 9)%N then String backslash "t"
  else if (n =? 10)%N then String backslash "n"
  else if (n =? 13)%N then String backslash "r"
  else if ((n <? 32) || (127 <=? n) && (n <=? 160) || (n =? 173))%N
  then String backslash
         (String "x" (String (hex_digit (n / 16)) (String (hex_digit (n mod 16)) EmptyString)))
  else String c EmptyString.

Fixpoint repr_chars (quote : ascii) (s : string) : string :=
  match s with
  | EmptyString => EmptyString
  | String c r => (repr_char quote c ++ repr_chars quote r)%string
  end.

(** [repr(s)] for a string: single quotes, unless the text has a single
    quote and no double quote. *)
Definition str_repr (s : string) : string :=
  let quote := if has_char squote s && negb (has_char dquote s)
               then dquote else squote in
  String quote (repr_chars quote s ++ String quote EmptyString).

(** Decimal exponent [k] of a positive [q]: [10^(k-1) <= q < 10^k]. *)
Fixpoint dec_exp_small (fuel : nat) (j : Z) (q : Q) : Z :=
  match fuel with
  | O => (1 - j)%Z
  | S n => if Qle_bool 1 (q * 10 ^ j) then (1 - j)%Z
           else dec_exp_small n (j + 1)%Z q
  end.

Definition dec_exp (q : Q) : Z :=
  if Qle_bool 1 q then Z.of_nat (String.length (pretty (Qfloor q)))
  else dec_exp_small 400 1 q.

(** The [p]-digit decimals just below and just above [q] that read back
    as [q]; of two, the nearer one, the even one on a tie. *)
Definition digits_at (q : Q) (k p : Z) : option Z :=
  let scale := 10 ^ (k - p) in
  let lo := Qfloor (q / scale) in
  let hi := (lo + 1)%Z in
  let ok c := Qeq_bool (Binary64.fl (inject_Z c * scale)) q in
  match ok lo, ok hi with
  | true, true =>
      match Qcompare (q - inject_Z lo * scale) (inject_Z hi * scale - q) with
      | Lt => Some lo
      | Gt => Some hi
      | Eq => Some (if Z.even lo then lo else hi)
      end
  | true, false => Some lo
  | false, true => Some hi
  | false, false => None
  end.

Fixpoint shortest_digits (fuel : nat) (q : Q) (k p : Z) : Z * Z :=
  match fuel with
  | O => (Binary64.rne (q / 10 ^ (k - p)), p)
  | S n =>
      match digits_at q k p with
      | Some d => (d, p)
      | None => shortest_digits n q k (p + 1)%Z
      end
  end.

Fixpoint drop_trailing_zeros (s : string) : string :=
  match s with
  | EmptyString => EmptyString
  | String c r =>
      match drop_trailing_zeros r with
      | EmptyString => if Ascii.eqb c "0" then EmptyString else String c EmptyString
      | r' => String c r'
      end
  end.

Definition exp_repr (e : Z) : string :=
  let m := pretty (Z.abs e) in
  ((if (e <? 0)%Z then "e-" else "e+")
   ++ (if (String.length m <? 2)%nat then "0" else EmptyString) ++ m)%string.

(** [repr(x)] for a finite positive float: the shortest digits that read
    back as [x], in positional notation between 1e-04 and 1e16. *)
Definition pos_float_repr (q : Q) : string :=
  let k := dec_exp q in
  let '(d, p) := shortest_digits 16 q k 1 in
  let ds0 := pretty d in
  let decpt := (k - p + Z.of_nat (String.length ds0))%Z in
  let ds := drop_trailing_zeros ds0 in
  let n := Z.of_nat (String.length ds) in
  if ((decpt <=? -4) || (16 <? decpt))%Z then
    (String.substring 0 1 ds
     ++ (if (1 <? n)%Z then "." ++ String.substring 1 (String.length ds - 1) ds else EmptyString)
     ++ exp_repr (decpt - 1))%string
  else if (decpt <=? 0)%Z then
    ("0." ++ PyStr.repeat_char "0" (Z.to_nat (- decpt)) ++ ds)%string
  else if (n <=? decpt)%Z then
    (ds ++ PyStr.repeat_char "0" (Z.to_nat (decpt - n)) ++ ".0")%string
  else
    (String.substring 0 (Z.to_nat decpt) ds ++ "."
     ++ String.substring (Z.to_nat decpt) (String.length ds - Z.to_nat decpt) ds)%string.

Definition float_repr (q : Q) : string :=
  match Qcompare q 0 with
  | Eq => "0.0"
  | Gt => pos_float_repr q
  | Lt => ("-" ++ pos_float_repr (- q))%string
  end.

End PyRepr.

(** [repr(v)] *)
Fixpoint py_repr (v : pyval) : string :=
  match v with
  | PNone => "None"
  | PBool true => "True"
  | PBool false => "False"
  | PInt z => pretty z
  | PFloat q => PyRepr.float_repr q
  | PStr s => PyRepr.str_repr s
  | PList l => ("[" ++ PyStr.join ", " (map py_repr l) ++ "]")%string
  | PDict d =>
      ("{" ++ PyStr.join ", "
                (map (fun kv => (PyRepr.str_repr (fst kv) ++ ": " ++ py_repr (snd kv))%string) d)
           ++ "}")%string
  end.

(** [str(v)]: the text itself for a string, [repr(v)] for the rest. *)
Definition py_str (v : pyval) : string :=
  match v with
  | PStr s => s
  | _ => py_repr v
  end.

(** ** Built-in operations on values *)

Fixpoint chars (s : string) : list pyval :=
  match s with
  | EmptyString => []
  | String c r => PStr (String c EmptyString) :: chars r
  end.

Fixpoint dict_get (d : list (string * pyval)) (k : string) : option pyval :=
  match d with
  | [] => None
  | (k', v) :: r => if String.eqb k' k then Some v else dict_get r k
  end.

(** [bool(v)] *)
Definition py_truth (v : pyval) : bool :=
  match v with
  | PNone => false
  | PBool b => b
  | PInt z => negb (z =? 0)%Z
  | PFloat q => negb (Qeq_bool q 0)
  | PStr s => PyStr.truthy s
  | PList l => negb (Nat.eqb (length l) 0)
  | PDict d => negb (Nat.eqb (length d) 0)
  end.

(** [len(v)] *)
Definition py_len (v : pyval) : result nat :=
  match v with
  | PStr s => Ok (String.length s)
  | PList l => Ok (length l)
  | PDict d => Ok (length d)
  | _ => Raise TypeError
  end.

(** The elements a [for] loop over [v] visits. *)
Definition py_iter (v : pyval) : result (list pyval) :=
  match v with
  | PStr s => Ok (chars s)
  | PList l => Ok l
  | PDict d => Ok (map (fun kv => PStr (fst kv)) d)
  | _ => Raise TypeError
  end.

Definition is_str (k : string) (v : pyval) : bool :=
  match v with
  | PStr s => String.eqb s k
  | _ => false
  end.

(** [k in v] for a string [k] *)
Definition py_contains (v : pyval) (k : string) : result bool :=
  match v with
  | PDict d => Ok (match dict_get d k with Some _ => true | None => false end)
  | PList l => Ok (existsb (is_str k) l)
  | PStr s => Ok (PyStr.contains k s)
  | _ => Raise TypeError
  end.

(** [v[k]] for a string [k] *)
Definition py_getitem (v : pyval) (k : string) : result pyval :=
  match v with
  | PDict d => match dict_get d k with Some x => Ok x | None => Raise KeyError end
  | _ => Raise TypeError
  end.

(** [v.get(k, default)] *)
Definition py_get (v : pyval) (k : string) (default : pyval) : result pyval :=
  match v with
  | PDict d => Ok (match dict_get d k with Some x => x | None => default end)
  | _ => Raise AttributeError
  end.

(** [v[i]] for a non-negative integer [i] *)
Definition py_index (v : pyval) (i : nat) : result pyval :=
  match v with
  | PList l => match nth_error l i with Some x => Ok x | None => Raise IndexError end
  | PStr s => match nth_error (chars s) i with Some x => Ok x | None => Raise IndexError end
  | PDict _ => Raise KeyError
  | _ => Raise TypeError
  end.

Module PyInt.

Definition digit (c : ascii) : option Z :=
  let n := N_of_ascii c in
  if ((48 <=? n) && (n <=? 57))%N then Some (Z.of_N (n - 48)) else None.

(** Decimal digits, single underscores allowed between two digits. *)
Fixpoint parse_digits (s : string) (acc : Z) (after_digit : bool) : option Z :=
  match s with
  | EmptyString => if after_digit then Some acc else None
  | String c r =>
      match digit c with
      | Some d => parse_digits r (acc * 10 + d)%Z true
      | None =>
          if Ascii.eqb c "_" && after_digit then parse_digits r acc false
          else None
      end
  end.

Definition parse (s : string) : option Z :=
  match PyStr.strip s with
  | String "-" r => option_map Z.opp (parse_digits r 0 false)
  | String "+" r => parse_digits r 0 false
  | t => parse_digits t 0 false
  end.

End PyInt.

(** [int(v)] *)
Definition py_int (v : pyval) : result Z :=
  match v with
  | PInt z => Ok z
  | PBool b => Ok (if b then 1 else 0)%Z
  | PFloat q => Ok (Z.quot (Qnum q) (Zpos (Qden q)))
  | PStr s => match PyInt.parse s with Some z => Ok z | None => Raise ValueError end
  | _ => Raise TypeError
  end.

(** [a / b] on two integers: the quotient correctly rounded to a float. *)
Definition py_truediv (a b : Z) : result Q :=
  if (b =? 0)%Z then Raise ZeroDivisionError
  else Ok (Binary64.fdiv (inject_Z a) (inject_Z b)).

(** [x / n] for a float [x] and an integer [n] *)
Definition py_fdiv_int (x : Q) (n : Z) : result Q :=
  if (n =? 0)%Z then Raise ZeroDivisionError
  else Ok (Binary64.fdiv x (inject_Z n)).

(** [sum(xs)] on floats: left to right from the integer 0, one binary64
    addition per element. *)
Definition py_sum (xs : list Q) : Q := fold_left Binary64.fadd xs 0.

(** ** The scoring helpers of [app.py] *)

(** [normalize_tech_stack(value)] *)
Definition normalize_tech_stack (value : pyval) : list string :=
  match value with
  | PList l =>
      map (fun v => PyStr.strip (py_str v))
          (List.filter (fun v => PyStr.truthy (PyStr.strip (py_str v))) l)
  | PStr s =>
      map (fun v => PyStr.strip v)
          (List.filter (fun v => PyStr.truthy (PyStr.strip v)) (PyStr.split "," s))
  | _ => []
  end.

(** [{t.lower() for t in normalize_tech_stack(value)}] *)
Definition lowered_set (value : pyval) : gset string :=
  list_to_set (map PyStr.lower (normalize_tech_stack value)).

(** [compute_skill_match(idea_tech_stack, builder_tech_stack)] *)
Definition compute_skill_match (idea_tech_stack builder_tech_stack : pyval) : result Q :=
  let idea_set := lowered_set idea_tech_stack in
  let builder_set := lowered_set builder_tech_stack in
  if Nat.eqb (size idea_set) 0 then Ok 0
  else
    let match_ := idea_set ∩ builder_set in
    if Nat.eqb (size match_) 0 then Ok 0
    else py_truediv (Z.of_nat (size match_)) (Z.of_nat (size idea_set)).

Definition bad_tokens : list string :=
  ["i dont know"; "i don't know"; "idk"; "not sure";
   "no idea"; "na"; "n/a"; "nothing"; "nope"]%string.

(** The body of the loop of [compute_answer_quality]: the score appended
    for one answer. *)
Definition answer_score (ans : pyval) : Q :=
  let txt := PyStr.lower (PyStr.strip (py_str ans)) in
  if existsb (fun tok => PyStr.contains tok txt) bad_tokens then 0
  else if (String.length txt <? 20)%nat then Binary64.fl 0.2
  else if (String.length txt <? 50)%nat then Binary64.fl 0.5
  else Binary64.fl 0.9.

(** [compute_answer_quality(answers)] *)
Definition compute_answer_quality (answers : pyval) : result Q :=
  if negb (py_truth answers) then Ok 0
  else
    rbind (py_iter answers) (fun items =>
    let scores := map answer_score items in
    rbind (py_fdiv_int (py_sum scores) (Z.of_nat (length scores))) (fun mean =>
    Ok (Binary64.round_nd mean 2))).

(** [compute_final_readiness(skill_match, answer_quality)] *)
Definition compute_final_readiness (skill_match answer_quality : Q) : Q :=
  let base := Binary64.fadd (Binary64.fmul skill_match (Binary64.fl 0.55))
                            (Binary64.fmul answer_quality (Binary64.fl 0.45)) in
  let score := Binary64.fmul base 10 in
  if Qeq_bool skill_match 0 then
    Binary64.round_nd (Binary64.py_min score (Binary64.fl 2.5)) 1
  else if Binary64.ltb answer_quality (Binary64.fl 0.25) then
    Binary64.round_nd (Binary64.py_min score (Binary64.fl 3.0)) 1
  else
    Binary64.round_nd score 1.

(** ** The data model: evaluations, interests, ideas *)

Module Evaluation.
Record t : Type := mk {
  readiness_score : Q;
  skill_match_ratio : Q;
  answer_quality : Q;
  personality : pyval;
  team_fit : pyval;
  summary : pyval
}.
End Evaluation.

(** The [builder] dictionary assembled by [submit_interest]. *)
Module Builder.
Record t : Type := mk {
  name : pyval;
  contact : pyval;
  email : pyval;
  tech_stack : list string;
  years_of_experience : pyval;
  comments : pyval
}.
End Builder.

(** The interest dictionary: its id, the builder's fields, the answers and
    the evaluation. *)
Module Interest.
Record t : Type := mk {
  interest_id : Z;
  builder : Builder.t;
  answers : pyval;
  evaluation : Evaluation.t
}.
End Interest.

Module Idea.
Record t : Type := mk {
  id : Z;
  idea_title : pyval;
  problem_statement : pyval;
  solution_summary : pyval;
  tech_stack : list string;
  team_requirements : pyval;
  required_team_size : Z;
  engagement_type : pyval;
  notes : pyval;
  generated_questions : pyval;
  interests : list Interest.t
}.

(** [idea["generated_questions"] = q] *)
Definition set_generated_questions (q : pyval) (i : t) : t :=
  mk (id i) (idea_title i) (problem_statement i) (solution_summary i)
     (tech_stack i) (team_requirements i) (required_team_size i)
     (engagement_type i) (notes i) q (interests i).

(** [idea["interests"].append(interest)] *)
Definition append_interest (x : Interest.t) (i : t) : t :=
  mk (id i) (idea_title i) (problem_statement i) (solution_summary i)
     (tech_stack i) (team_requirements i) (required_team_size i)
     (engagement_type i) (notes i) (generated_questions i) (interests i ++ [x]).
End Idea.

(** ** The store and the handler monad *)

(** An entry of the log: [evaluate_builder] was entered for an idea. *)
Inductive event : Type :=
| EngineRun (idea_id : Z).

(** The process state: the global list [IDEAS], and a log of the engine
    runs (the log is instrumentation, the program does not read it). *)
Record world : Type := mkWorld {
  IDEAS : list Idea.t;
  engine_log : list event
}.

(** A handler body: it may read and mutate the store, and either returns
    or raises; a mutation made before an exception stays. *)
Definition M (A : Type) : Type := world -> result A * world.

Definition ret {A : Type} (a : A) : M A := fun w => (Ok a, w).

Definition bind {A B : Type} (m : M A) (k : A -> M B) : M B :=
  fun w =>
    match m w with
    | (Ok a, w') => k a w'
    | (Raise e, w') => (Raise e, w')
    end.

Definition lift {A : Type} (r : result A) : M A := fun w => (r, w).

Definition get_ideas : M (list Idea.t) := fun w => (Ok (IDEAS w), w).

Definition set_ideas (l : list Idea.t) : M unit :=
  fun w => (Ok tt, mkWorld l (engine_log w)).

Definition tell (e : event) : M unit :=
  fun w => (Ok tt, mkWorld (IDEAS w) (engine_log w ++ [e])).

Notation "'let*' x ':=' m 'in' k" := (bind m (fun x => k))
  (at level 10, x name, m at level 100, k at level 200).
Notation "m ;;; k" := (bind m (fun _ => k))
  (at level 100, k at level 100, right associativity).

(** [IDEAS[idx]] *)
Definition ideas_at (idx : nat) : M Idea.t :=
  let* ideas := get_ideas in
  lift (match ideas !! idx with
        | Some idea => Ok idea
        | None => Raise IndexError
        end).

(** A mutation of the dictionary that [IDEAS[idx]] refers to. *)
Definition update_idea (idx : nat) (f : Idea.t -> Idea.t) : M unit :=
  let* idea := ideas_at idx in
  let* ideas := get_ideas in
  set_ideas (<[idx := f idea]> ideas).

Fixpoint find_from (idx : nat) (ideas : list Idea.t) (idea_id : Z) : option nat :=
  match ideas with
  | [] => None
  | idea :: rest =>
      if (Idea.id idea =? idea_id)%Z then Some idx
      else find_from (S idx) rest idea_id
  end.

(** [find_idea_index(idea_id)] *)
Definition find_idea_index (idea_id : Z) (ideas : list Idea.t) : option nat :=
  find_from 0 ideas idea_id.

(** ** The external generative service

    [generate_questions] and [get_ai_personality] call the OpenAI client.
    What the client call evaluates to (a decoded JSON value, or an
    exception) is an input of the handler, written [ext]. *)

(** [get_ai_personality]: the prompt indexes [questions] and [answers] at
    every position below [len(answers)] before the client is called. *)
Definition get_ai_personality (questions answers : pyval) (ext : result pyval)
  : result pyval :=
  rbind (py_len answers) (fun n =>
  rbind (rmap (fun i => rbind (py_index questions i) (fun q =>
                        rbind (py_index answers i) (fun a => Ok (q, a))))
              (seq 0 n)) (fun _ =>
  ext)).

Definition as_pylist (l : list string) : pyval := PList (map PStr l).

(** [evaluate_builder(idea, builder, questions, answers)] *)
Definition evaluate_builder (idea : Idea.t) (builder : Builder.t)
    (questions answers : pyval) (ext : result pyval) : M Evaluation.t :=
  tell (EngineRun (Idea.id idea)) ;;;
  let* skill_match := lift (compute_skill_match (as_pylist (Idea.tech_stack idea))
                                           (as_pylist (Builder.tech_stack builder))) in
  let* answer_quality := lift (compute_answer_quality answers) in
  let* personality := lift (get_ai_personality questions answers ext) in
  let readiness := compute_final_readiness skill_match answer_quality in
  let* p := lift (py_get personality "personality" (PStr "unknown")) in
  let* tf := lift (py_get personality "team_fit" (PStr EmptyString)) in
  let* su := lift (py_get personality "summary" (PStr EmptyString)) in
  ret (Evaluation.mk readiness skill_match answer_quality p tf su).

(** ** The request handlers *)

Inductive response : Type :=
| IdeaCreated (idea : Idea.t)
| MissingFields (missing : list string)
| TeamSizeMismatch
| IdeaNotFound
| QuestionsGenerated (q : pyval)
| AnswerCountMismatch
| InterestRecorded (interest : Interest.t)
| InternalServerError (e : exn).

(** [[f for f in required if f not in data]] *)
Fixpoint missing_fields (required : list string) (data : pyval)
  : result (list string) :=
  match required with
  | [] => Ok []
  | f :: rest =>
      rbind (py_contains data f) (fun present =>
      rbind (missing_fields rest data) (fun m =>
      Ok (if present then m else f :: m)))
  end.

Definition idea_required_fields : list string :=
  ["idea_title"; "problem_statement"; "solution_summary";
   "tech_stack"; "team_requirements"; "engagement_type";
   "required_team_size"].

Definition interest_required_fields : list string :=
  ["name"; "contact"; "email"; "tech_stack"; "years_of_experience"; "answers"].

(** [post_idea()] with [data = request.get_json()] *)
Definition post_idea (data : pyval) : M response :=
  let* missing := lift (missing_fields idea_required_fields data) in
  if negb (Nat.eqb (length missing) 0) then ret (MissingFields missing)
  else
    let* size_field := lift (py_getitem data "required_team_size") in
    let* required_team := lift (py_int size_field) in
    let* roles := lift (py_getitem data "team_requirements") in
    let* members := lift (py_iter roles) in
    let* counts := lift (rmap (fun i => rbind (py_get i "count" (PInt 0)) py_int) members) in
    let total_team := fold_left Z.add counts 0%Z in
    if negb (total_team =? required_team)%Z then ret TeamSizeMismatch
    else
      let* ideas := get_ideas in
      let* title := lift (py_getitem data "idea_title") in
      let* problem := lift (py_getitem data "problem_statement") in
      let* solution := lift (py_getitem data "solution_summary") in
      let* stack := lift (py_getitem data "tech_stack") in
      let* engagement := lift (py_getitem data "engagement_type") in
      let* notes := lift (py_get data "notes" (PStr EmptyString)) in
      let idea :=
        Idea.mk (Z.of_nat (length ideas) + 1) title problem solution
                (normalize_tech_stack stack) roles required_team engagement
                notes (PList []) [] in
      let* ideas' := get_ideas in
      set_ideas (ideas' ++ [idea]) ;;;
      ret (IdeaCreated idea).

(** [gen_q(idea_id)] *)
Definition gen_q (idea_id : Z) (ext : result pyval) : M response :=
  let* ideas := get_ideas in
  match find_idea_index idea_id ideas with
  | None => ret IdeaNotFound
  | Some idx =>
      ideas_at idx ;;;
      let* q := lift ext in
      update_idea idx (Idea.set_generated_questions q) ;;;
      ret (QuestionsGenerated q)
  end.

(** [submit_interest(idea_id)] with [data = request.get_json()] *)
Definition submit_interest (idea_id : Z) (data : pyval) (ext : result pyval)
  : M response :=
  let* ideas := get_ideas in
  match find_idea_index idea_id ideas with
  | None => ret IdeaNotFound
  | Some idx =>
      let* missing := lift (missing_fields interest_required_fields data) in
      if negb (Nat.eqb (length missing) 0) then ret (MissingFields missing)
      else
        let* idea := ideas_at idx in
        let questions := Idea.generated_questions idea in
        let* answers := lift (py_getitem data "answers") in
        let* n_questions := lift (py_len questions) in
        let* n_answers := lift (py_len answers) in
        if negb (Nat.eqb n_questions n_answers) then ret AnswerCountMismatch
        else
          let* name := lift (py_getitem data "name") in
          let* contact := lift (py_getitem data "contact") in
          let* email := lift (py_getitem data "email") in
          let* stack := lift (py_getitem data "tech_stack") in
          let* years := lift (py_getitem data "years_of_experience") in
          let* comments := lift (py_get data "comments" (PStr EmptyString)) in
          let builder :=
            Builder.mk name contact email (normalize_tech_stack stack) years comments in
          let* evaluation := evaluate_builder idea builder questions answers ext in
          let* current := ideas_at idx in
          let interest :=
            Interest.mk (Z.of_nat (length (Idea.interests current)) + 1)
                        builder answers evaluation in
          update_idea idx (Idea.append_interest interest) ;;;
          ret (InterestRecorded interest)
  end.

(** ** The service: one request at a time *)

Inductive request : Type :=
| PostIdea (data : pyval)
| GenerateQuestions (idea_id : Z) (ext : result pyval)
| SubmitInterest (idea_id : Z) (data : pyval) (ext : result pyval).

Definition handle (r : request) : M response :=
  match r with
  | PostIdea data => post_idea data
  | GenerateQuestions idea_id ext => gen_q idea_id ext
  | SubmitInterest idea_id data ext => submit_interest idea_id data ext
  end.

(** The web framework answers an uncaught exception with status 500 and
    keeps the process, and its store, running. *)
Definition reply (r : result response) : response :=
  match r with
  | Ok resp => resp
  | Raise e => InternalServerError e
  end.

Definition serve (r : request) (w : world) : response * world :=
  (reply (fst (handle r w)), snd (handle r w)).

Definition initial : world := mkWorld [] [].

Fixpoint serve_all (rs : list request) (w : world) : list response * world :=
  match rs with
  | [] => ([], w)
  | r :: rest =>
      let '(resp, w') := serve r w in
      let '(resps, w'') := serve_all rest w' in
      (resp :: resps, w'')
  end.

(** The states the process can be in. *)
Inductive reachable : world -> Prop :=
| reachable_initial : reachable initial
| reachable_serve r w : reachable w -> reachable (snd (serve r w)).

(** ** The rules as the specification words them *)

(** Readiness Combiner: [base = skill_match*0.55 + answer_quality*0.45],
    [score = base*10]; the cap is 2.5 when the skill match is exactly 0,
    else 3.0 when the answer quality is below 0.25, else there is none;
    the capped score is rounded to one decimal. *)
Definition readiness_score_of (skill_match answer_quality : Q) : Q :=
  let base := Binary64.fadd (Binary64.fmul skill_match (Binary64.fl 0.55))
                            (Binary64.fmul answer_quality (Binary64.fl 0.45)) in
  Binary64.fmul base 10.

Definition readiness_cap (skill_match answer_quality : Q) : option Q :=
  if Qeq_bool skill_match 0 then Some (Binary64.fl 2.5)
  else if Binary64.ltb answer_quality (Binary64.fl 0.25) then Some (Binary64.fl 3.0)
  else None.

Definition readiness_rule (skill_match answer_quality : Q) : Q :=
  let score := readiness_score_of skill_match answer_quality in
  Binary64.round_nd
    (match readiness_cap skill_match answer_quality with
     | Some cap => Binary64.py_min score cap
     | None => score
     end) 1.

(** Normalizer: from a list, every element converted to text and
    stripped, the empty results discarded; from a string, the same after
    splitting on commas; from any other value, nothing. *)
Definition normalizer_rule (value : pyval) : list string :=
  match value with
  | PList l => List.filter PyStr.truthy (map (fun v => PyStr.strip (py_str v)) l)
  | PStr s => List.filter PyStr.truthy (map PyStr.strip (PyStr.split "," s))
  | _ => []
  end.

(** Skill Match Scorer: both stacks go through the Normalizer, are
    lower-cased and turned into sets; the result is
    [|idea_set ∩ builder_set| / |idea_set|], and 0.0 for an empty idea
    set. *)
Definition token_set (value : pyval) : gset string :=
  list_to_set (map PyStr.lower (normalizer_rule value)).

Definition skill_match_rule (idea_tech_stack builder_tech_stack : pyval) : Q :=
  let idea_set := token_set idea_tech_stack in
  let builder_set := token_set builder_tech_stack in
  if Nat.eqb (size idea_set) 0 then 0
  else Binary64.fdiv (inject_Z (Z.of_nat (size (idea_set ∩ builder_set))))
                     (inject_Z (Z.of_nat (size idea_set))).

(** Answer Quality Scorer: the low-effort phrases, the score of one
    lower-cased and trimmed text, and the mean over all answers rounded
    to two decimals (0.0 for no answers). *)
Definition low_effort_phrases : list string :=
  ["i dont know"; "i don't know"; "idk"; "not sure"; "no idea";
   "na"; "n/a"; "nothing"; "nope"].

Definition phrase_length_score (txt : string) : Q :=
  if existsb (fun phrase => PyStr.contains phrase txt) low_effort_phrases then 0
  else if (String.length txt <? 20)%nat then Binary64.fl 0.2
  else if (String.length txt <? 50)%nat then Binary64.fl 0.5
  else Binary64.fl 0.9.

Definition answer_score_rule (ans : pyval) : Q :=
  phrase_length_score (PyStr.strip (PyStr.lower (py_str ans))).

Definition answer_quality_rule (answers : list pyval) : Q :=
  match answers with
  | [] => 0
  | _ =>
      let scores := map answer_score_rule answers in
      let mean := Binary64.fdiv (py_sum scores) (inject_Z (Z.of_nat (length scores))) in
      Binary64.round_nd mean 2
  end.

(** ** Observations on the store and on the responses *)

(** [[start; start+1; ...]], [n] numbers. *)
Fixpoint count_from (start : Z) (n : nat) : list Z :=
  match n with
  | O => []
  | S k => start :: count_from (start + 1) k
  end.

(** [[1; 2; ...; n]] *)
Definition first_ids (n : nat) : list Z := count_from 1 n.

Definition idea_ids (ideas : list Idea.t) : list Z := Idea.id <$> ideas.

Definition interest_ids (interests : list Interest.t) : list Z :=
  Interest.interest_id <$> interests.

(** Ids are sequential: the idea at position [n] (from 1) has id [n], and
    so has the interest at position [k] of any idea. *)
Definition sequential_ids (ideas : list Idea.t) : Prop :=
  idea_ids ideas = first_ids (length ideas)
  /\ Forall (fun idea => interest_ids (Idea.interests idea)
                         = first_ids (length (Idea.interests idea))) ideas.

(** The idea a response announces as created, if any. *)
Definition created_idea (resp : response) : list Idea.t :=
  match resp with
  | IdeaCreated idea => [idea]
  | _ => []
  end.

(** The ideas created by a run, in creation order. *)
Definition created_ideas (resps : list response) : list Idea.t :=
  flat_map created_idea resps.

(** The interest a request appended to idea [idea_id], if any. *)
Definition recorded_interest (idea_id : Z) (r : request) (resp : response)
  : list Interest.t :=
  match r, resp with
  | SubmitInterest target _ _, InterestRecorded x =>
      if (target =? idea_id)%Z then [x] else []
  | _, _ => []
  end.

(** The interests appended to idea [idea_id] by a run, in order. *)
Fixpoint recorded_interests (idea_id : Z) (rs : list request) (resps : list response)
  : list Interest.t :=
  match rs, resps with
  | r :: rs', resp :: resps' =>
      recorded_interest idea_id r resp ++ recorded_interests idea_id rs' resps'
  | _, _ => []
  end.

(** The interests the store holds for idea [idea_id]. *)
Definition interests_of (idea_id : Z) (ideas : list Idea.t) : list Interest.t :=
  match find_idea_index idea_id ideas with
  | Some idx =>
      match ideas !! idx with
      | Some idea => Idea.interests idea
      | None => []
      end
  | None => []
  end.

(** ** Sample requests, for the examples *)

Definition sample_idea (stack : pyval) : pyval :=
  PDict [("idea_title", PStr "Route planner");
         ("problem_statement", PStr "Couriers lose time");
         ("solution_summary", PStr "Plan the rounds");
         ("tech_stack", stack);
         ("team_requirements",
          PList [PDict [("role", PStr "backend"); ("count", PInt 1)];
                 PDict [("role", PStr "frontend"); ("count", PInt 1)]]);
         ("engagement_type", PStr "part-time");
         ("required_team_size", PInt 2)].

Definition sample_interest (stack answers : pyval) : pyval :=
  PDict [("name", PStr "Ada");
         ("contact", PStr "555-0100");
         ("email", PStr "ada@example.org");
         ("tech_stack", stack);
         ("years_of_experience", PInt 4);
         ("answers", answers)].

Definition sample_personality : result pyval :=
  Ok (PDict [("personality", PStr "pragmatic");
             ("team_fit", PStr "Fits a small team.")]).

(** The id a response hands out, if any. *)
Definition assigned_id (resp : response) : option Z :=
  match resp with
  | IdeaCreated idea => Some (Idea.id idea)
  | InterestRecorded x => Some (Interest.interest_id x)
  | _ => None
  end.

(** A store with one idea, without questions yet, and that idea. *)
Definition sample_stored_idea : Idea.t :=
  Idea.mk 1 (PStr "Route planner") (PStr "Couriers lose time")
          (PStr "Plan the rounds") ["Python"; "Go"]
          (PList [PDict [("role", PStr "backend"); ("count", PInt 1)];
                  PDict [("role", PStr "frontend"); ("count", PInt 1)]])
          2 (PStr "part-time") (PStr EmptyString) (PList []) [].

Definition sample_world : world :=
  snd (serve (PostIdea (sample_idea (PStr "Python, Go"))) initial).

Definition sample_fields (answers : pyval) : list (string * pyval) :=
  [("name", PStr "Ada");
   ("contact", PStr "555-0100");
   ("email", PStr "ada@example.org");
   ("tech_stack", PStr "python, rust");
   ("years_of_experience", PInt 4);
   ("answers", answers)].

(** ** Further observations on requests and on the store *)

(** The HTTP status a response is sent with. *)
Definition status (resp : response) : Z :=
  match resp with
  | IdeaCreated _ => 201
  | MissingFields _ => 400
  | TeamSizeMismatch => 400
  | IdeaNotFound => 404
  | QuestionsGenerated _ => 200
  | AnswerCountMismatch => 400
  | InterestRecorded _ => 201
  | InternalServerError _ => 500
  end.

(** [sum(int(i.get("count", 0)) for i in roles)], the total that
    [post_idea] compares with the required team size. *)
Definition team_total (roles : pyval) : result Z :=
  rbind (py_iter roles) (fun members =>
  rbind (rmap (fun i => rbind (py_get i "count" (PInt 0)) py_int) members) (fun counts =>
  Ok (fold_left Z.add counts 0%Z))).

(** The required fields that an object lacks, in the order required. *)
Definition absent_fields (required : list string) (d : list (string * pyval))
  : list string :=
  List.filter (fun f => match dict_get d f with Some _ => false | None => true end)
              required.

(** Two records of one idea: everything but the questions and the
    interests is the same. *)
Definition same_attributes (old new : Idea.t) : Prop :=
  Idea.id new = Idea.id old
  /\ Idea.idea_title new = Idea.idea_title old
  /\ Idea.problem_statement new = Idea.problem_statement old
  /\ Idea.solution_summary new = Idea.solution_summary old
  /\ Idea.tech_stack new = Idea.tech_stack old
  /\ Idea.team_requirements new = Idea.team_requirements old
  /\ Idea.required_team_size new = Idea.required_team_size old
  /\ Idea.engagement_type new = Idea.engagement_type old
  /\ Idea.notes new = Idea.notes old.

(** A later record of an idea: same attributes, and the old interests,
    unchanged, at the front of the new ones. *)
Definition idea_extends (old new : Idea.t) : Prop :=
  same_attributes old new
  /\ exists added, Idea.interests new = Idea.interests old ++ added.

(** A later store, after some ideas were announced as created: every old
    idea at its position, extended, then the announced ideas in their
    order, extended. *)
Definition store_extends (olds announced news : list Idea.t) : Prop :=
  exists kept created,
    news = kept ++ created
    /\ Forall2 idea_extends olds kept
    /\ Forall2 idea_extends announced created.

(** The roles of a stored idea add up to its team size. *)
Definition team_consistent (idea : Idea.t) : Prop :=
  team_total (Idea.team_requirements idea) = Ok (Idea.required_team_size idea).

(** The evaluation stored with an interest is what the scorers give for
    the idea's stack, the builder's stack and the answers. *)
Definition evaluation_consistent (idea : Idea.t) (x : Interest.t) : Prop :=
  compute_skill_match (as_pylist (Idea.tech_stack idea))
                      (as_pylist (Builder.tech_stack (Interest.builder x)))
  = Ok (Evaluation.skill_match_ratio (Interest.evaluation x))
  /\ compute_answer_quality (Interest.answers x)
     = Ok (Evaluation.answer_quality (Interest.evaluation x))
  /\ Evaluation.readiness_score (Interest.evaluation x)
     = compute_final_readiness
         (Evaluation.skill_match_ratio (Interest.evaluation x))
         (Evaluation.answer_quality (Interest.evaluation x)).

(** The relative error of one rounding, away from the subnormal range,
    and its compound over [k] roundings. *)
Definition unit_roundoff : Q := 1 # 9007199254740992.

Definition growth (k : nat) : Q := (1 + unit_roundoff) ^ Z.of_nat k.

(* ===================================================================== *)
(** * Part II: properties                                                 *)
(* ===================================================================== *)

(** ** Binary64 rounding is monotone *)

Section Binary64Facts.
Import Binary64.
Local Open Scope Q_scope.

Lemma rne_bounds q : inject_Z (Qfloor q) <= inject_Z (rne q) /\ (rne q <= Qfloor q + 1)%Z /\ (Qfloor q <= rne q)%Z.
Proof.
  unfold rne. destruct (Qcompare _ _); [destruct (Z.even _)|..]; rewrite <- ?Zle_Qle; lia.
Qed.

Lemma rne_mono x y : x <= y -> (rne x <= rne y)%Z.
Proof.
  intros Hxy.
  pose proof (Qfloor_resp_le _ _ Hxy) as Hf.
  destruct (Z.eq_dec (Qfloor x) (Qfloor y)) as [E|NE].
  - assert (Hfrac : x - inject_Z (Qfloor y) <= y - inject_Z (Qfloor y)) by lra.
    unfold rne. rewrite E.
    destruct (Qcompare (x - inject_Z (Qfloor y)) (1 # 2)) eqn:Cx;
      destruct (Qcompare (y - inject_Z (Qfloor y)) (1 # 2)) eqn:Cy;
      try apply Qeq_alt in Cx; try apply Qeq_alt in Cy;
      try rewrite <- Qlt_alt in Cx; try rewrite <- Qlt_alt in Cy;
      try rewrite <- Qgt_alt in Cx; try rewrite <- Qgt_alt in Cy;
      try (exfalso; lra);
      destruct (Z.even (Qfloor y)); lia.
  - pose proof (rne_bounds x) as (_ & Hx & _).
    pose proof (rne_bounds y) as (_ & _ & Hy). lia.
Qed.

Lemma rne_inject_Z n : rne (inject_Z n) = n.
Proof.
  unfold rne. rewrite Qfloor_Z.
  assert (H : inject_Z n - inject_Z n == 0) by ring.
  destruct (Qcompare _ _) eqn:C; try reflexivity.
  - apply Qeq_alt in C. lra.
  - rewrite <- Qgt_alt in C. lra.
Qed.

Lemma pow2_pos z : 0 < 2 ^ z.
Proof. apply Qpower_0_lt. reflexivity. Qed.

Lemma pow2_add a b : 2 ^ (a + b) == 2 ^ a * 2 ^ b.
Proof. apply Qpower_plus. discriminate. Qed.

Lemma pow2_le a b : (a <= b)%Z -> 2 ^ a <= 2 ^ b.
Proof. intros H. apply Qpower_le_compat_l; [exact H | discriminate]. Qed.

Lemma pow2_lt_inv a b : 2 ^ a < 2 ^ b -> (a < b)%Z.
Proof. intros H. apply (Qpower_lt_compat_l_inv 2); [exact H | reflexivity]. Qed.

Lemma pow2_succ a : 2 ^ (a + 1) == 2 * 2 ^ a.
Proof. rewrite pow2_add. change (2 ^ 1) with 2. ring. Qed.

Lemma pow2_of_log2 n : (0 < n)%Z ->
  2 ^ Z.log2 n <= inject_Z n /\ inject_Z n < 2 * 2 ^ Z.log2 n.
Proof.
  intros Hn. destruct (Z.log2_spec n Hn) as [Hlo Hhi].
  pose proof (Z.log2_nonneg n) as H0.
  rewrite <- pow2_succ.
  change 2 with (inject_Z 2).
  rewrite <- !Zpower_Qpower by lia.
  rewrite <- Zle_Qle, <- Zlt_Qlt.
  replace (Z.log2 n + 1)%Z with (Z.succ (Z.log2 n)) by lia. tauto.
Qed.

Lemma ilog2_spec q : 0 < q -> 2 ^ ilog2 q <= q /\ q < 2 ^ (ilog2 q + 1).
Proof.
  intros Hq.
  assert (Hn : (0 < Qnum q)%Z).
  { destruct q as [n d]. unfold Qlt in Hq. simpl in *. lia. }
  destruct (pow2_of_log2 _ Hn) as [Hn1 Hn2].
  destruct (pow2_of_log2 (Zpos (Qden q)) eq_refl) as [Hd1 Hd2].
  pose proof (pow2_pos (Z.log2 (Qnum q))) as HA.
  pose proof (pow2_pos (Z.log2 (Zpos (Qden q)))) as HB.
  assert (Eq : q == inject_Z (Qnum q) / inject_Z (Zpos (Qden q))).
  { destruct q as [n d]. apply Qmake_Qdiv. }
  assert (HD : 0 < inject_Z (Zpos (Qden q))) by (rewrite <- (Zlt_Qlt 0); lia).
  set (a := Z.log2 (Qnum q)) in *. set (b := Z.log2 (Zpos (Qden q))) in *.
  set (N := inject_Z (Qnum q)) in *. set (D := inject_Z (Zpos (Qden q))) in *.
  assert (Hdiv : 2 ^ (a - b) == 2 ^ a / 2 ^ b).
  { apply Qpower_minus. discriminate. }
  assert (Hup : q < 2 * 2 ^ (a - b)).
  { rewrite Eq, Hdiv. apply Qlt_shift_div_r; [exact HD|].
    assert (E : 2 * (2 ^ a / 2 ^ b) * D == (2 * 2 ^ a) * (D / 2 ^ b))
      by (field; intros F; rewrite F in HB; discriminate HB).
    rewrite E.
    assert (1 <= D / 2 ^ b) by (apply Qle_shift_div_l; [exact HB | lra]).
    nra. }
  assert (Hlow : 2 ^ (a - b) < 2 * q).
  { rewrite Eq, Hdiv. apply Qlt_shift_div_r; [exact HB|].
    assert (E : 2 * (N / D) * 2 ^ b == N * (2 * 2 ^ b / D))
      by (field; intros F; rewrite F in HD; discriminate HD).
    rewrite E.
    assert (1 < 2 * 2 ^ b / D) by (apply Qlt_shift_div_l; [exact HD | lra]).
    nra. }
  unfold ilog2. fold a b.
  destruct (Qle_bool (2 ^ (a - b)) q) eqn:C.
  - apply Qle_bool_iff in C. split; [exact C|]. rewrite pow2_succ. exact Hup.
  - assert (Hlt : q < 2 ^ (a - b)).
    { apply Qnot_le_lt. intros F. apply Qle_bool_iff in F. congruence. }
    replace (a - b - 1 + 1)%Z with (a - b)%Z by lia.
    split; [|exact Hlt].
    assert (E2 : 2 ^ (a - b) == 2 * 2 ^ (a - b - 1)).
    { rewrite <- pow2_succ. replace (a - b - 1 + 1)%Z with (a - b)%Z by lia. reflexivity. }
    lra.
Qed.

Lemma ilog2_mono x y : 0 < x -> x <= y -> (ilog2 x <= ilog2 y)%Z.
Proof.
  intros Hx Hxy.
  destruct (ilog2_spec x Hx) as [H1 _].
  destruct (ilog2_spec y) as [_ H2]; [lra|].
  assert (H : 2 ^ ilog2 x < 2 ^ (ilog2 y + 1)) by lra.
  apply pow2_lt_inv in H. lia.
Qed.

Lemma ulp_exp_mono x y : 0 < x -> x <= y -> (ulp_exp x <= ulp_exp y)%Z.
Proof. intros Hx Hxy. pose proof (ilog2_mono x y Hx Hxy). unfold ulp_exp. lia. Qed.

Lemma fl_pos_eq q : fl_pos q == inject_Z (rne (q / 2 ^ ulp_exp q)) * 2 ^ ulp_exp q.
Proof. unfold fl_pos. apply Qred_correct. Qed.

Lemma scaled_mono x y e : x <= y -> x / 2 ^ e <= y / 2 ^ e.
Proof.
  intros H. unfold Qdiv. apply Qmult_le_compat_r; [exact H|].
  apply Qlt_le_weak, Qinv_lt_0_compat, pow2_pos.
Qed.

Lemma fl_pos_nonneg q : 0 <= q -> 0 <= fl_pos q.
Proof.
  intros Hq. rewrite fl_pos_eq.
  apply Qmult_le_0_compat; [|apply Qlt_le_weak, pow2_pos].
  change 0 with (inject_Z 0). rewrite <- Zle_Qle.
  rewrite <- (rne_inject_Z 0). apply rne_mono.
  change (inject_Z 0) with 0.
  apply Qle_shift_div_l; [apply pow2_pos | lra].
Qed.

(** Below its binade's upper end, and above its lower end. *)
Lemma fl_pos_upper q : 0 < q -> fl_pos q <= 2 ^ (ulp_exp q + 53).
Proof.
  intros Hq. rewrite fl_pos_eq, Z.add_comm, pow2_add.
  apply Qmult_le_compat_r; [|apply Qlt_le_weak, pow2_pos].
  assert (E : 2 ^ 53 == inject_Z (2 ^ 53)) by reflexivity.
  rewrite E, <- Zle_Qle.
  rewrite <- (rne_inject_Z (2 ^ 53)). apply rne_mono.
  rewrite <- E. apply Qle_shift_div_r; [apply pow2_pos|].
  rewrite <- pow2_add.
  destruct (ilog2_spec q Hq) as [_ Hhi].
  apply Qlt_le_weak. eapply Qlt_le_trans; [exact Hhi|].
  apply pow2_le. unfold ulp_exp. lia.
Qed.

Lemma fl_pos_lower q : 0 < q -> (-1074 < ulp_exp q)%Z -> 2 ^ (ulp_exp q + 52) <= fl_pos q.
Proof.
  intros Hq He. rewrite fl_pos_eq, Z.add_comm, pow2_add.
  apply Qmult_le_compat_r; [|apply Qlt_le_weak, pow2_pos].
  assert (E : 2 ^ 52 == inject_Z (2 ^ 52)) by reflexivity.
  rewrite E, <- Zle_Qle.
  rewrite <- (rne_inject_Z (2 ^ 52)) at 1. apply rne_mono.
  rewrite <- E. apply Qle_shift_div_l; [apply pow2_pos|].
  rewrite <- pow2_add.
  destruct (ilog2_spec q Hq) as [Hlo _].
  eapply Qle_trans; [|exact Hlo].
  apply pow2_le. unfold ulp_exp in *. lia.
Qed.

Lemma fl_pos_mono x y : 0 < x -> x <= y -> fl_pos x <= fl_pos y.
Proof.
  intros Hx Hxy.
  assert (Hy : 0 < y) by lra.
  pose proof (ulp_exp_mono x y Hx Hxy) as He.
  destruct (Z.eq_dec (ulp_exp x) (ulp_exp y)) as [E|NE].
  - rewrite !fl_pos_eq, E.
    apply Qmult_le_compat_r; [|apply Qlt_le_weak, pow2_pos].
    rewrite <- Zle_Qle. apply rne_mono, scaled_mono, Hxy.
  - eapply Qle_trans; [apply fl_pos_upper, Hx|].
    eapply Qle_trans; [|apply fl_pos_lower; [exact Hy|]].
    + apply pow2_le. lia.
    + unfold ulp_exp in *. lia.
Qed.

Lemma fl_zero : fl 0 = 0.
Proof. reflexivity. Qed.

Lemma fl_nonneg q : 0 <= q -> 0 <= fl q.
Proof.
  intros Hq. unfold fl. destruct (Qcompare q 0) eqn:C.
  - lra.
  - rewrite <- Qlt_alt in C. lra.
  - apply fl_pos_nonneg, Hq.
Qed.

Lemma fl_nonpos q : q <= 0 -> fl q <= 0.
Proof.
  intros Hq. unfold fl. destruct (Qcompare q 0) eqn:C.
  - lra.
  - rewrite <- Qlt_alt in C. pose proof (fl_pos_nonneg (- q)). lra.
  - rewrite <- Qgt_alt in C. lra.
Qed.

(** Rounding to binary64 is monotone. *)
Lemma fl_mono x y : x <= y -> fl x <= fl y.
Proof.
  intros Hxy.
  destruct (Qlt_le_dec 0 x) as [Hx|Hx].
  - assert (Hy : 0 < y) by lra.
    unfold fl. rewrite Qgt_alt in Hx, Hy. rewrite Hx, Hy.
    rewrite <- Qgt_alt in Hx. apply fl_pos_mono; assumption.
  - destruct (Qlt_le_dec y 0) as [Hy|Hy].
    + assert (Hx' : x < 0) by lra.
      unfold fl. rewrite Qlt_alt in Hx', Hy. rewrite Hx', Hy.
      rewrite <- Qlt_alt in Hy.
      assert (fl_pos (- y) <= fl_pos (- x)) by (apply fl_pos_mono; lra).
      lra.
    + eapply Qle_trans; [apply fl_nonpos, Hx | apply fl_nonneg, Hy].
Qed.

Lemma fl_proper x y : x == y -> fl x == fl y.
Proof. intros E. apply Qle_antisym; apply fl_mono; lra. Qed.

Lemma pow10_pos z : 0 < 10 ^ z.
Proof. apply Qpower_0_lt. reflexivity. Qed.

(** [round(x, nd)] is monotone in [x]. *)
Lemma round_nd_mono x y nd : x <= y -> round_nd x nd <= round_nd y nd.
Proof.
  intros Hxy. unfold round_nd. apply fl_mono.
  unfold Qdiv. apply Qmult_le_compat_r;
    [|apply Qlt_le_weak, Qinv_lt_0_compat, pow10_pos].
  rewrite <- Zle_Qle. apply rne_mono.
  apply Qmult_le_compat_r; [exact Hxy | apply Qlt_le_weak, pow10_pos].
Qed.

Lemma py_min_le_l a b : py_min a b <= a.
Proof. unfold py_min. destruct (Qlt_le_dec b a); lra. Qed.

Lemma py_min_le_r a b : py_min a b <= b.
Proof. unfold py_min. destruct (Qlt_le_dec b a); lra. Qed.

(** The model computes what the kernel's binary64 arithmetic computes. *)
Example binary64_agrees_with_primitive_floats :
  forallb Hardware.agrees Hardware.samples = true.
Proof. vm_compute. reflexivity. Qed.

(** Well-known values: the float of 0.1; 0.1 + 0.2 is not the float of
    0.3; [round] works on the exact binary value (2.675 is stored below
    its decimal, 0.125 is a true tie and goes to the even digit). *)
Example binary64_known_values :
  fl 0.1 == 3602879701896397 # 36028797018963968
  /\ fadd (fl 0.1) (fl 0.2) == fl 0.30000000000000004
  /\ ~ fadd (fl 0.1) (fl 0.2) == fl 0.3
  /\ round_nd (fl 2.675) 2 == fl 2.67
  /\ round_nd 0.125 2 == fl 0.12
  /\ round_nd 2.5 0 == 2.
Proof.
  repeat split; try (apply Qeq_bool_iff; vm_compute; reflexivity).
  intros H. apply Qeq_bool_iff in H. vm_compute in H. discriminate H.
Qed.

End Binary64Facts.

(** ** The Readiness Combiner *)

Section Readiness.
Import Binary64.
Local Open Scope Q_scope.

Lemma ltb_true a b : ltb a b = true <-> a < b.
Proof. unfold ltb. destruct (Qlt_le_dec a b); split; intros; try easy; lra. Qed.

Lemma ltb_false a b : ltb a b = false <-> b <= a.
Proof. unfold ltb. destruct (Qlt_le_dec a b); split; intros; try easy; lra. Qed.

Lemma round_nd_decimal x nd : exists k : Z, round_nd x nd = fl (inject_Z k / 10 ^ nd).
Proof. eexists. reflexivity. Qed.

Lemma round1_capped x cap : round_nd (py_min x cap) 1 <= round_nd cap 1.
Proof. apply round_nd_mono, py_min_le_r. Qed.

Lemma round1_of_2_5 : round_nd (fl 2.5) 1 == 2.5.
Proof. apply Qeq_bool_iff. vm_compute. reflexivity. Qed.

Lemma round1_of_3_0 : round_nd (fl 3.0) 1 == 3.
Proof. apply Qeq_bool_iff. vm_compute. reflexivity. Qed.

Lemma fmul_mono_l x y c : 0 <= c -> x <= y -> fmul x c <= fmul y c.
Proof. intros Hc H. apply fl_mono. apply Qmult_le_compat_r; assumption. Qed.

Lemma fadd_mono a b c d : a <= b -> c <= d -> fadd a c <= fadd b d.
Proof. intros H1 H2. apply fl_mono. lra. Qed.

Lemma readiness_score_of_mono s s' a a' :
  s <= s' -> a <= a' -> readiness_score_of s a <= readiness_score_of s' a'.
Proof.
  intros Hs Ha. unfold readiness_score_of.
  apply fmul_mono_l; [lra|].
  apply fadd_mono; apply fmul_mono_l; try assumption; apply fl_nonneg; lra.
Qed.

Lemma readiness_le_rounded_score s a :
  compute_final_readiness s a <= round_nd (readiness_score_of s a) 1.
Proof.
  unfold compute_final_readiness. fold (readiness_score_of s a).
  destruct (Qeq_bool s 0); [|destruct (ltb a (fl 0.25))];
    try (apply round_nd_mono, py_min_le_l). lra.
Qed.

Lemma readiness_at_top : compute_final_readiness 1 (fl 0.9) == fl 9.6.
Proof. apply Qeq_bool_iff. vm_compute. reflexivity. Qed.

(** C1. The code follows the combiner rule of the specification: the raw
    score is [(skill_match*0.55 + answer_quality*0.45)*10], the guardrails
    apply in the stated order (2.5 when the skill match is exactly 0, else
    3.0 when the answer quality is below 0.25, else none), and the result
    is the capped score rounded to one decimal. Hence the result is at
    most 2.5 in the first case and at most 3.0 in the second, and it is
    always the binary64 value of some [k/10]. The statement holds for all
    arguments, in particular on [0,1] x [0,0.9]. *)
Theorem readiness_combiner_rule (skill_match answer_quality : Q) :
  compute_final_readiness skill_match answer_quality
    = readiness_rule skill_match answer_quality
  /\ match readiness_cap skill_match answer_quality with
     | Some cap =>
         compute_final_readiness skill_match answer_quality <= cap
         /\ cap == (if Qeq_bool skill_match 0 then 2.5 else 3)
     | None =>
         compute_final_readiness skill_match answer_quality
           = round_nd (readiness_score_of skill_match answer_quality) 1
     end
  /\ exists k : Z,
       compute_final_readiness skill_match answer_quality = fl (inject_Z k / 10).
Proof.
  unfold compute_final_readiness, readiness_rule, readiness_cap.
  fold (readiness_score_of skill_match answer_quality).
  destruct (Qeq_bool skill_match 0); [|destruct (ltb answer_quality (fl 0.25))];
    (split; [reflexivity|]); (split; [|apply (round_nd_decimal _ 1)]).
  - split; [|apply Qeq_bool_iff; vm_compute; reflexivity].
    eapply Qle_trans; [apply round1_capped|].
    rewrite round1_of_2_5. apply Qle_bool_iff. vm_compute. reflexivity.
  - split; [|apply Qeq_bool_iff; vm_compute; reflexivity].
    eapply Qle_trans; [apply round1_capped|].
    rewrite round1_of_3_0. apply Qle_bool_iff. vm_compute. reflexivity.
  - reflexivity.
Qed.

(** The readiness examples of the specification: (0.5, 0.9) gives 6.8
    with no cap; a zero skill match is capped at 2.5 whatever the answer
    quality; (0.8, 0.1) is capped at 3.0. *)
Example readiness_examples :
  compute_final_readiness 0.5 (fl 0.9) == fl 6.8
  /\ compute_final_readiness 0 (fl 0.9) == 2.5
  /\ compute_final_readiness (fl 0.8) (fl 0.1) == 3.
Proof. repeat split; apply Qeq_bool_iff; vm_compute; reflexivity. Qed.

(** C2, as stated, fails: with skill match 1.0 and answer quality 0.9 the
    base is 0.55 + 0.405 = 0.955, the score 9.55, and the result 9.6,
    which is above 9.25. *)
Lemma readiness_ceiling_exceeds_9_25 :
  0 <= 1 <= 1 /\ 0 <= fl 0.9 <= fl 0.9
  /\ compute_final_readiness 1 (fl 0.9) == fl 9.6
  /\ ~ compute_final_readiness 1 (fl 0.9) <= 9.25.
Proof.
  split; [lra|]. split; [split; [apply fl_nonneg; lra | lra]|].
  split; [exact readiness_at_top|].
  intros H. apply Qle_bool_iff in H. vm_compute in H. discriminate H.
Qed.

(** C2, amended: for every skill match in [0,1] and every answer quality
    in [0,0.9] (0.9 being the float of that literal), the readiness score
    is at most 9.6, and 9.6 is what skill match 1.0 and answer quality 0.9
    give. *)
Theorem readiness_ceiling (skill_match answer_quality : Q) :
  0 <= skill_match <= 1 -> 0 <= answer_quality <= fl 0.9 ->
  compute_final_readiness skill_match answer_quality <= fl 9.6
  /\ compute_final_readiness 1 (fl 0.9) == fl 9.6.
Proof.
  intros [_ Hs] [_ Ha]. split; [|exact readiness_at_top].
  eapply Qle_trans; [apply readiness_le_rounded_score|].
  eapply Qle_trans;
    [apply round_nd_mono, (readiness_score_of_mono _ 1 _ (fl 0.9)); assumption|].
  apply Qle_bool_iff. vm_compute. reflexivity.
Qed.

Lemma readiness_ceiling_witness :
  compute_final_readiness 1 (fl 0.9) <= fl 9.6
  /\ compute_final_readiness 1 (fl 0.9) == fl 9.6.
Proof.
  apply (readiness_ceiling 1 (fl 0.9)).
  - split; apply Qle_bool_iff; vm_compute; reflexivity.
  - split; apply Qle_bool_iff; vm_compute; reflexivity.
Defined.

End Readiness.

(** ** Strings *)

Section Strings.
Import PyStr.

Lemma isspace_lower_char c : isspace (lower_char c) = isspace c.
Proof. destruct c as [[] [] [] [] [] [] [] []]; reflexivity. Qed.

Lemma lower_char_idem c : lower_char (lower_char c) = lower_char c.
Proof. destruct c as [[] [] [] [] [] [] [] []]; reflexivity. Qed.

Lemma lower_lstrip s : lower (lstrip s) = lstrip (lower s).
Proof.
  induction s as [|c r IH]; [reflexivity|]. simpl.
  rewrite isspace_lower_char. destruct (isspace c); [exact IH | reflexivity].
Qed.

Lemma lower_rstrip s : lower (rstrip s) = rstrip (lower s).
Proof.
  induction s as [|c r IH]; [reflexivity|]. simpl.
  rewrite <- IH, isspace_lower_char.
  destruct (rstrip r); simpl; [destruct (isspace c)|]; reflexivity.
Qed.

(** Trimming and lower-casing commute. *)
Lemma lower_strip s : lower (strip s) = strip (lower s).
Proof. unfold strip. rewrite lower_rstrip, lower_lstrip. reflexivity. Qed.

Lemma length_lower s : String.length (lower s) = String.length s.
Proof. induction s; simpl; congruence. Qed.

Lemma lstrip_head s c r : lstrip s = String c r -> isspace c = false.
Proof.
  induction s as [|d t IH]; simpl; [discriminate|].
  destruct (isspace d) eqn:E; [exact IH|]. intros [= <- <-]. exact E.
Qed.

Lemma rstrip_idem s : rstrip (rstrip s) = rstrip s.
Proof.
  induction s as [|c r IH]; [reflexivity|]. simpl.
  destruct (rstrip r) as [|d t] eqn:E.
  - destruct (isspace c) eqn:Ec; simpl; [reflexivity|]. rewrite Ec. reflexivity.
  - simpl in *. rewrite IH. reflexivity.
Qed.

Lemma rstrip_head s c r : rstrip s = String c r -> exists r', s = String c r'.
Proof.
  destruct s as [|d t]; simpl; [discriminate|].
  destruct (rstrip t); [destruct (isspace d); [discriminate|]|];
    intros [= <- <-]; eauto.
Qed.

Lemma lstrip_fixed s : match s with String c _ => isspace c = false | EmptyString => True end ->
  lstrip s = s.
Proof. destruct s as [|c r]; simpl; [reflexivity|]. intros ->. reflexivity. Qed.

(** A stripped string is its own strip. *)
Lemma strip_idem s : strip (strip s) = strip s.
Proof.
  unfold strip at 1. rewrite lstrip_fixed; [apply rstrip_idem|].
  unfold strip. destruct (rstrip (lstrip s)) as [|c r] eqn:E; [exact I|].
  apply rstrip_head in E as [r' E]. eapply lstrip_head, E.
Qed.

End Strings.

(** ** The Normalizer *)

Section Normalizer.

Lemma map_filter_swap {A B : Type} (f : A -> B) (p : B -> bool) (l : list A) :
  map f (List.filter (fun a => p (f a)) l) = List.filter p (map f l).
Proof.
  induction l as [|a l IH]; [reflexivity|]. simpl.
  destruct (p (f a)); simpl; congruence.
Qed.

Lemma normalize_is_rule value : normalize_tech_stack value = normalizer_rule value.
Proof.
  destruct value; try reflexivity; unfold normalize_tech_stack, normalizer_rule.
  - apply (map_filter_swap PyStr.strip PyStr.truthy).
  - apply (map_filter_swap (fun v => PyStr.strip (py_str v)) PyStr.truthy).
Qed.


Lemma normalize_tokens_clean value :
  Forall (fun t => PyStr.truthy t = true /\ PyStr.strip t = t) (normalize_tech_stack value).
Proof.
  rewrite normalize_is_rule. apply Forall_forall. intros t Ht.
  destruct value; simpl in Ht; try (apply elem_of_nil in Ht; contradiction);
    apply list_elem_of_In, filter_In in Ht as [Hin Htr];
    apply in_map_iff in Hin as (x & <- & _);
    (split; [exact Htr | apply strip_idem]).
Qed.

End Normalizer.

(** ** The Skill Match Scorer *)

Section SkillMatch.
Import Binary64.

Lemma fl_of_zero x : (x == 0)%Q -> fl x = 0%Q.
Proof. intros E. unfold fl. apply Qeq_alt in E. rewrite E. reflexivity. Qed.

Lemma fl_one : (fl 1 == 1)%Q.
Proof. apply Qeq_bool_iff. vm_compute. reflexivity. Qed.

Lemma fdiv_nat_unit (m n : nat) :
  (m <= n)%nat -> (0 < n)%nat ->
  (0 <= fdiv (inject_Z (Z.of_nat m)) (inject_Z (Z.of_nat n)) <= 1)%Q.
Proof.
  intros Hmn Hn. unfold fdiv.
  assert (Hn' : (0 < inject_Z (Z.of_nat n))%Q) by (rewrite <- (Zlt_Qlt 0); lia).
  assert (Hm' : (0 <= inject_Z (Z.of_nat m))%Q) by (rewrite <- (Zle_Qle 0); lia).
  split.
  - apply fl_nonneg. apply Qle_shift_div_l; [exact Hn' | lra].
  - rewrite <- fl_one. apply fl_mono.
    apply Qle_shift_div_r; [exact Hn'|]. rewrite Qmult_1_l, <- Zle_Qle. lia.
Qed.

Lemma token_set_lowered value : token_set value = lowered_set value.
Proof. unfold token_set, lowered_set. rewrite normalize_is_rule. reflexivity. Qed.

Lemma size_zero_empty (X : gset string) : size X = 0%nat <-> X = ∅.
Proof. rewrite size_empty_iff. apply leibniz_equiv_iff. Qed.

Lemma skill_match_is_rule idea builder :
  compute_skill_match idea builder = Ok (skill_match_rule idea builder).
Proof.
  unfold compute_skill_match, skill_match_rule. rewrite !token_set_lowered.
  destruct (Nat.eqb_spec (size (lowered_set idea)) 0) as [E|NE]; [reflexivity|].
  destruct (Nat.eqb_spec (size (lowered_set idea ∩ lowered_set builder)) 0) as [E'|NE'].
  - rewrite E'. unfold fdiv. rewrite fl_of_zero; [reflexivity|].
    unfold Qdiv. simpl. apply Qmult_0_l.
  - unfold py_truediv.
    destruct (Z.eqb_spec (Z.of_nat (size (lowered_set idea))) 0); [lia | reflexivity].
Qed.

Lemma skill_match_rule_unit idea builder :
  (0 <= skill_match_rule idea builder <= 1)%Q.
Proof.
  unfold skill_match_rule.
  destruct (Nat.eqb_spec (size (token_set idea)) 0) as [E|NE]; [lra|].
  apply fdiv_nat_unit; [|lia].
  apply subseteq_size, intersection_subseteq_l.
Qed.

Lemma skill_match_rule_zero idea builder :
  token_set idea = ∅ \/ token_set idea ∩ token_set builder = ∅ ->
  skill_match_rule idea builder = 0%Q.
Proof.
  unfold skill_match_rule. intros [E|E].
  - rewrite E, size_empty. reflexivity.
  - destruct (Nat.eqb (size (token_set idea)) 0); [reflexivity|].
    rewrite E, size_empty. apply fl_of_zero. unfold Qdiv. simpl. apply Qmult_0_l.
Qed.

Lemma In_normalize_list t l :
  In t (normalize_tech_stack (PList l))
  <-> exists v, In v l /\ PyStr.truthy (PyStr.strip (py_str v)) = true
                /\ t = PyStr.strip (py_str v).
Proof.
  simpl. rewrite in_map_iff. split.
  - intros (v & <- & Hv). apply filter_In in Hv as [Hin Ht]. eauto.
  - intros (v & Hin & Ht & ->). exists v. split; [reflexivity|].
    apply filter_In. auto.
Qed.

(** The token set of a list depends on which elements occur, not on
    their order or multiplicity. *)
Lemma lowered_set_list_ext l l' :
  (forall v, In v l <-> In v l') -> lowered_set (PList l) = lowered_set (PList l').
Proof.
  intros H. unfold lowered_set. apply set_eq. intros t.
  rewrite !elem_of_list_to_set, !list_elem_of_In, !in_map_iff.
  split; intros (x & <- & Hx); exists x; (split; [reflexivity|]);
    apply In_normalize_list in Hx as (v & Hv & Ht & ->);
    apply In_normalize_list; exists v; (split; [apply H; exact Hv | auto]).
Qed.

(** C3. For tech-stack values of any shape the Skill Match Scorer
    returns [|idea_set ∩ builder_set| / |idea_set|] (a float division)
    over the lower-cased normalized token sets, and 0.0 for an empty idea
    set; the result lies in [0,1]; it is exactly 0 when the idea set or
    the intersection is empty; lists with the same elements, in any order
    and with any multiplicity, give the same result on either side; and
    [Python, Go] against [python, rust] gives 0.5. *)
Theorem skill_match_contract (idea builder : pyval) (l l' : list pyval) :
  compute_skill_match idea builder = Ok (skill_match_rule idea builder)
  /\ (0 <= skill_match_rule idea builder <= 1)%Q
  /\ (token_set idea = ∅ \/ token_set idea ∩ token_set builder = ∅ ->
      compute_skill_match idea builder = Ok 0%Q)
  /\ ((forall v, In v l <-> In v l') ->
      compute_skill_match (PList l) builder = compute_skill_match (PList l') builder
      /\ compute_skill_match idea (PList l) = compute_skill_match idea (PList l'))
  /\ compute_skill_match (PList [PStr "Python"; PStr "Go"])
                         (PList [PStr "python"; PStr "rust"]) = Ok (1 # 2)%Q
  /\ compute_skill_match (PList [PStr "Go"; PStr "python"; PStr "GO"; PStr "Python"])
                         (PList [PStr "rust"; PStr "python"; PStr "rust"]) = Ok (1 # 2)%Q.
Proof.
  split; [apply skill_match_is_rule|].
  split; [apply skill_match_rule_unit|].
  split.
  { intros H. rewrite skill_match_is_rule, skill_match_rule_zero; [reflexivity | exact H]. }
  split.
  { intros H. unfold compute_skill_match.
    rewrite (lowered_set_list_ext l l' H). split; reflexivity. }
  split; vm_compute; reflexivity.
Qed.
End SkillMatch.

(** ** The Answer Quality Scorer *)

Section AnswerQuality.
Import Binary64.

Lemma answer_score_of_text ans :
  answer_score ans = phrase_length_score (PyStr.lower (PyStr.strip (py_str ans))).
Proof. reflexivity. Qed.

Lemma answer_score_is_rule ans : answer_score ans = answer_score_rule ans.
Proof. unfold answer_score_rule. rewrite <- lower_strip. reflexivity. Qed.

Lemma answer_scores_are_rule answers :
  map answer_score answers = map answer_score_rule answers.
Proof. apply map_ext. intros a. apply answer_score_is_rule. Qed.

Lemma answer_quality_nonempty ans rest :
  compute_answer_quality (PList (ans :: rest))
  = Ok (round_nd (fdiv (py_sum (map answer_score (ans :: rest)))
                       (inject_Z (Z.of_nat (length (ans :: rest))))) 2).
Proof.
  unfold compute_answer_quality, py_fdiv_int. cbn [py_truth py_iter rbind negb length Nat.eqb].
  rewrite length_map.
  destruct (Z.eqb_spec (Z.of_nat (length (ans :: rest))) 0) as [E|_];
    [simpl in E; lia | reflexivity].
Qed.

Lemma answer_quality_is_rule answers :
  compute_answer_quality (PList answers) = Ok (answer_quality_rule answers).
Proof.
  destruct answers as [|ans rest]; [reflexivity|].
  rewrite answer_quality_nonempty. unfold answer_quality_rule.
  rewrite answer_scores_are_rule, length_map. reflexivity.
Qed.

(** C4. The Answer Quality Scorer returns 0.0 for no answers; otherwise
    each answer is lower-cased and trimmed (in either order) and scored
    0.0 when the text contains one of the nine low-effort phrases, else
    0.2 below 20 characters, else 0.5 below 50, else 0.9; the result is
    the mean of these scores (their float sum divided by their number)
    rounded to two decimals. The example of the specification gives the
    per-answer scores [0.0, 0.9] and the result 0.45. *)
Theorem answer_quality_contract (answers : list pyval) (ans : pyval) :
  compute_answer_quality (PList answers) = Ok (answer_quality_rule answers)
  /\ compute_answer_quality (PList []) = Ok 0%Q
  /\ answer_score ans = answer_score_rule ans
  /\ map answer_score
         [PStr "idk"; PStr "This is a decent length answer about my experience."]
     = [0%Q; fl 0.9]
  /\ compute_answer_quality
       (PList [PStr "idk"; PStr "This is a decent length answer about my experience."])
     = Ok (fl 0.45).
Proof.
  split; [apply answer_quality_is_rule|].
  split; [reflexivity|].
  split; [apply answer_score_is_rule|].
  split; vm_compute; reflexivity.
Qed.



End AnswerQuality.

(** ** The store *)

Section Store.
Local Open Scope Z_scope.

Lemma length_count_from start n : length (count_from start n) = n.
Proof. revert start. induction n as [|n IH]; intros start; simpl; [|rewrite IH]; reflexivity. Qed.

Lemma count_from_snoc start n :
  count_from start (S n) = count_from start n ++ [start + Z.of_nat n].
Proof.
  revert start. induction n as [|n IH]; intros start.
  - simpl. f_equal. lia.
  - change (count_from start (S (S n))) with (start :: count_from (start + 1) (S n)).
    rewrite IH. simpl. do 3 f_equal. lia.
Qed.

Lemma first_ids_snoc n : first_ids (S n) = first_ids n ++ [Z.of_nat n + 1].
Proof. unfold first_ids. rewrite count_from_snoc. do 2 f_equal. lia. Qed.

Lemma count_from_lookup start n k :
  (k < n)%nat -> count_from start n !! k = Some (start + Z.of_nat k).
Proof.
  revert start k. induction n as [|n IH]; intros start k Hk; [lia|].
  destruct k as [|k]; simpl.
  - f_equal. lia.
  - rewrite IH by lia. f_equal. lia.
Qed.

Lemma count_from_bounds start n x :
  x ∈ count_from start n -> start <= x < start + Z.of_nat n.
Proof.
  revert start. induction n as [|n IH]; intros start; simpl.
  - intros H. apply elem_of_nil in H. contradiction.
  - intros [->|H]%elem_of_cons; [lia|]. apply IH in H. lia.
Qed.

Lemma NoDup_count_from start n : NoDup (count_from start n).
Proof.
  revert start. induction n as [|n IH]; intros start; simpl; constructor.
  - intros H. apply count_from_bounds in H. lia.
  - apply IH.
Qed.

(** *** [find_idea_index] *)

Lemma find_from_Some k ideas idea_id idx :
  find_from k ideas idea_id = Some idx ->
  exists idea, (k <= idx)%nat /\ ideas !! (idx - k)%nat = Some idea
               /\ Idea.id idea = idea_id.
Proof.
  revert k. induction ideas as [|i rest IH]; intros k; simpl; [discriminate|].
  destruct (Z.eqb_spec (Idea.id i) idea_id) as [E|NE].
  - intros [= <-]. exists i. rewrite Nat.sub_diag. auto.
  - intros H. apply IH in H as (idea & Hk & Hl & Hid).
    exists idea. split; [lia|]. split; [|exact Hid].
    replace (idx - k)%nat with (S (idx - S k)) by lia. exact Hl.
Qed.

Lemma find_idea_index_Some idea_id ideas idx :
  find_idea_index idea_id ideas = Some idx ->
  exists idea, ideas !! idx = Some idea /\ Idea.id idea = idea_id.
Proof.
  intros H. apply find_from_Some in H as (idea & _ & Hl & Hid).
  rewrite Nat.sub_0_r in Hl. eauto.
Qed.

(** The search looks at the ids only. *)
Lemma find_from_ids k ideas ideas' idea_id :
  idea_ids ideas = idea_ids ideas' ->
  find_from k ideas idea_id = find_from k ideas' idea_id.
Proof.
  revert k ideas'. induction ideas as [|i rest IH]; intros k [|i' rest'];
    simpl; try discriminate; [reflexivity|].
  intros [= Hi Hrest]. rewrite Hi. destruct (Idea.id i' =? idea_id); [reflexivity|].
  apply IH, Hrest.
Qed.

Lemma find_from_app k ideas extra idea_id :
  find_from k (ideas ++ extra) idea_id
  = match find_from k ideas idea_id with
    | Some idx => Some idx
    | None => find_from (k + length ideas) extra idea_id
    end.
Proof.
  revert k. induction ideas as [|i rest IH]; intros k; simpl.
  - rewrite Nat.add_0_r. reflexivity.
  - destruct (Idea.id i =? idea_id); [reflexivity|].
    rewrite IH. replace (S k + length rest)%nat with (k + S (length rest))%nat by lia.
    reflexivity.
Qed.

Lemma idea_ids_insert ideas idx idea (f : Idea.t -> Idea.t) :
  ideas !! idx = Some idea -> Idea.id (f idea) = Idea.id idea ->
  idea_ids (<[idx := f idea]> ideas) = idea_ids ideas.
Proof.
  intros Hl Hid. unfold idea_ids. rewrite list_fmap_insert, Hid.
  apply list_insert_id. rewrite list_lookup_fmap, Hl. reflexivity.
Qed.

(** *** What each handler does to the store *)

Ltac use_known :=
  repeat match goal with
    | H : ?t = Ok _ |- context [?t] => rewrite H
    | H : ?t = Raise _ |- context [?t] => rewrite H
    | H : ?t = Some _ |- context [?t] => rewrite H
    | H : ?t = None |- context [?t] => rewrite H
    | H : ?t = true |- context [?t] => rewrite H
    | H : ?t = false |- context [?t] => rewrite H
    end.

Ltac no_inner_match t :=
  lazymatch t with
  | context [match _ with Ok _ => _ | Raise _ => _ end] => fail
  | context [match _ with Some _ => _ | None => _ end] => fail
  | context [if _ then _ else _] => fail
  | _ => idtac
  end.

Ltac split_result :=
  match goal with
  | |- context [if ?b then _ else _] =>
      no_inner_match b; let E := fresh "E" in destruct b eqn:E
  | |- context [match ?o with Some _ => _ | None => _ end] =>
      no_inner_match o; let E := fresh "E" in destruct o eqn:E
  | |- context [match ?r with Ok _ => _ | Raise _ => _ end] =>
      no_inner_match r; let E := fresh "E" in destruct r eqn:E
  end.

Ltac reduce_step := cbn [IDEAS engine_log length Nat.eqb negb].

Ltac run_handler :=
  unfold evaluate_builder, update_idea, ideas_at,
    bind, lift, ret, get_ideas, set_ideas, tell;
  reduce_step;
  repeat (first [progress use_known | split_result]; reduce_step).

Lemma world_eta w : mkWorld (IDEAS w) (engine_log w) = w.
Proof. destruct w. reflexivity. Qed.

Lemma bind_get_ideas {A : Type} (k : list Idea.t -> M A) w :
  bind get_ideas k w = k (IDEAS w) w.
Proof. reflexivity. Qed.

Lemma post_idea_cases data w :
  (exists r, post_idea data w = (r, w) /\ created_idea (reply r) = [])
  \/ (exists idea stack,
        post_idea data w
        = (Ok (IdeaCreated idea), mkWorld (IDEAS w ++ [idea]) (engine_log w))
        /\ py_getitem data "tech_stack" = Ok stack
        /\ Idea.id idea = Z.of_nat (length (IDEAS w)) + 1
        /\ Idea.tech_stack idea = normalize_tech_stack stack
        /\ Idea.interests idea = []).
Proof.
  unfold post_idea. run_handler;
    try (left; eexists; split; reflexivity).
  right. do 2 eexists. split; [reflexivity|]. auto.
Qed.

Lemma gen_q_cases idea_id ext w :
  (exists r, gen_q idea_id ext w = (r, w) /\ created_idea (reply r) = [])
  \/ (exists idx idea q,
        IDEAS w !! idx = Some idea
        /\ gen_q idea_id ext w
           = (Ok (QuestionsGenerated q),
              mkWorld (<[idx := Idea.set_generated_questions q idea]> (IDEAS w))
                      (engine_log w))).
Proof.
  unfold gen_q. run_handler; try (left; eexists; split; reflexivity).
  right. do 3 eexists. split; [eassumption | reflexivity].
Qed.

Lemma submit_interest_cases idea_id data ext w :
  (exists r, submit_interest idea_id data ext w = (r, w)
             /\ created_idea (reply r) = []
             /\ forall x, reply r <> InterestRecorded x)
  \/ (exists e,
        submit_interest idea_id data ext w
        = (Raise e, mkWorld (IDEAS w) (engine_log w ++ [EngineRun idea_id])))
  \/ (exists idx idea x,
        find_idea_index idea_id (IDEAS w) = Some idx
        /\ IDEAS w !! idx = Some idea
        /\ submit_interest idea_id data ext w
           = (Ok (InterestRecorded x),
              mkWorld (<[idx := Idea.append_interest x idea]> (IDEAS w))
                      (engine_log w ++ [EngineRun idea_id]))
        /\ Idea.id idea = idea_id
        /\ Interest.interest_id x = Z.of_nat (length (Idea.interests idea)) + 1).
Proof.
  unfold submit_interest. rewrite bind_get_ideas.
  destruct (find_idea_index idea_id (IDEAS w)) as [idx|] eqn:Hfind.
  2: { left. eexists. split; [reflexivity|]. split; [reflexivity | intros ?; discriminate]. }
  destruct (find_idea_index_Some _ _ _ Hfind) as (idea & Hl & Hid).
  subst idea_id.
  run_handler;
    try (left; eexists; split; [reflexivity|]; split; [reflexivity | intros ?; discriminate]);
    try (right; left; eexists; reflexivity).
  right. right. exists idx, idea. eexists.
  split; [reflexivity|]. split; [exact Hl|]. repeat split; reflexivity.
Qed.

(** *** Sequential ids are an invariant *)

Lemma sequential_ids_nil : sequential_ids [].
Proof. split; [reflexivity | constructor]. Qed.

Lemma sequential_ids_append ideas idea :
  sequential_ids ideas ->
  Idea.id idea = Z.of_nat (length ideas) + 1 ->
  Idea.interests idea = [] ->
  sequential_ids (ideas ++ [idea]).
Proof.
  intros [Hids Hint] Hid Hempty. split.
  - unfold idea_ids in *. rewrite fmap_app, length_app, Hids. simpl.
    rewrite Nat.add_1_r, first_ids_snoc, Hid. reflexivity.
  - apply Forall_app. split; [exact Hint|].
    constructor; [|constructor]. rewrite Hempty. reflexivity.
Qed.

Lemma sequential_ids_questions ideas idx idea q :
  sequential_ids ideas -> ideas !! idx = Some idea ->
  sequential_ids (<[idx := Idea.set_generated_questions q idea]> ideas).
Proof.
  intros [Hids Hint] Hl. split.
  - rewrite (idea_ids_insert _ _ _ (Idea.set_generated_questions q)), length_insert;
      [exact Hids | exact Hl | reflexivity].
  - apply Forall_insert; [exact Hint|].
    apply (proj1 (Forall_lookup _ _) Hint idx idea Hl).
Qed.

Lemma sequential_ids_interest ideas idx idea x :
  sequential_ids ideas -> ideas !! idx = Some idea ->
  Interest.interest_id x = Z.of_nat (length (Idea.interests idea)) + 1 ->
  sequential_ids (<[idx := Idea.append_interest x idea]> ideas).
Proof.
  intros [Hids Hint] Hl Hx. split.
  - rewrite (idea_ids_insert _ _ _ (Idea.append_interest x)), length_insert;
      [exact Hids | exact Hl | reflexivity].
  - apply Forall_insert; [exact Hint|].
    pose proof (proj1 (Forall_lookup _ _) Hint idx idea Hl) as Hi.
    simpl in *. unfold interest_ids in *.
    rewrite fmap_app, length_app, Hi. simpl.
    rewrite Nat.add_1_r, first_ids_snoc, Hx. reflexivity.
Qed.

(** *** The interests held for an idea *)

Lemma interests_of_append idea_id ideas idea :
  Idea.interests idea = [] ->
  interests_of idea_id (ideas ++ [idea]) = interests_of idea_id ideas.
Proof.
  intros Hempty. unfold interests_of, find_idea_index. rewrite find_from_app.
  destruct (find_from 0 ideas idea_id) as [idx|] eqn:Hfind.
  - apply find_from_Some in Hfind as (i & _ & Hl & _).
    rewrite Nat.sub_0_r in Hl. rewrite lookup_app_l by (eapply lookup_lt_Some, Hl).
    reflexivity.
  - simpl. destruct (Idea.id idea =? idea_id); [|reflexivity].
    rewrite list_lookup_middle by reflexivity. exact Hempty.
Qed.

Lemma interests_of_insert idea_id ideas idx idea (f : Idea.t -> Idea.t) :
  ideas !! idx = Some idea -> Idea.id (f idea) = Idea.id idea ->
  interests_of idea_id (<[idx := f idea]> ideas)
  = if decide (find_idea_index idea_id ideas = Some idx)
    then Idea.interests (f idea) else interests_of idea_id ideas.
Proof.
  intros Hl Hid. unfold interests_of, find_idea_index.
  rewrite (find_from_ids 0 _ ideas) by (apply idea_ids_insert; assumption).
  destruct (find_from 0 ideas idea_id) as [j|] eqn:Hfind.
  - destruct (decide (Some j = Some idx)) as [[= ->]|NE].
    + rewrite list_lookup_insert_eq by (eapply lookup_lt_Some, Hl). reflexivity.
    + rewrite list_lookup_insert_ne by congruence. reflexivity.
  - destruct (decide (None = Some idx)); [discriminate | reflexivity].
Qed.

(** *** One request *)

Lemma recorded_interest_none idea_id r resp :
  (forall x, resp <> InterestRecorded x) -> recorded_interest idea_id r resp = [].
Proof.
  intros H. destruct r; try reflexivity. destruct resp; try reflexivity.
  exfalso. eapply H. reflexivity.
Qed.

Lemma serve_step r w :
  sequential_ids (IDEAS w) ->
  sequential_ids (IDEAS (snd (serve r w)))
  /\ idea_ids (IDEAS (snd (serve r w)))
     = idea_ids (IDEAS w) ++ idea_ids (created_idea (fst (serve r w)))
  /\ forall idea_id,
       interests_of idea_id (IDEAS (snd (serve r w)))
       = interests_of idea_id (IDEAS w) ++ recorded_interest idea_id r (fst (serve r w)).
Proof.
  intros Hinv. unfold serve. destruct r as [data|target ext|target data ext];
    cbn [handle fst snd].
  - destruct (post_idea_cases data w)
      as [(r & -> & Hr)|(idea & stack & -> & _ & Hid & _ & Hempty)]; cbn [fst snd reply IDEAS].
    + rewrite Hr. cbn. rewrite app_nil_r. split; [exact Hinv|]. split; [reflexivity|].
      intros idea_id. rewrite app_nil_r. reflexivity.
    + split; [apply sequential_ids_append; assumption|].
      split; [unfold idea_ids; rewrite fmap_app; reflexivity|].
      intros idea_id. cbn. rewrite app_nil_r. apply interests_of_append, Hempty.
  - destruct (gen_q_cases target ext w)
      as [(r & -> & Hr)|(idx & idea & q & Hl & ->)]; cbn [fst snd reply IDEAS].
    + rewrite Hr. cbn. rewrite app_nil_r. split; [exact Hinv|]. split; [reflexivity|].
      intros idea_id. rewrite app_nil_r. reflexivity.
    + split; [apply sequential_ids_questions; assumption|].
      cbn. rewrite app_nil_r. split.
      * apply (idea_ids_insert _ _ _ (Idea.set_generated_questions q)); auto.
      * intros idea_id. rewrite app_nil_r.
        rewrite (interests_of_insert _ _ _ _ (Idea.set_generated_questions q)) by auto.
        destruct (decide _) as [Hf|]; [|reflexivity].
        unfold interests_of. rewrite Hf, Hl. reflexivity.
  - destruct (submit_interest_cases target data ext w)
      as [(r & -> & Hc & Hr)|[(e & ->)|(idx & idea & x & Hfind & Hl & -> & Hid & Hx)]];
      cbn [fst snd reply IDEAS].
    + rewrite Hc. split; [exact Hinv|]. split; [symmetry; apply app_nil_r|].
      intros idea_id. rewrite (recorded_interest_none _ _ _ Hr), app_nil_r. reflexivity.
    + cbn. rewrite app_nil_r. split; [exact Hinv|]. split; [reflexivity|].
      intros idea_id. rewrite app_nil_r. reflexivity.
    + split; [apply sequential_ids_interest; assumption|].
      cbn [created_idea idea_ids fmap list_fmap]. rewrite app_nil_r. split.
      * apply (idea_ids_insert _ _ _ (Idea.append_interest x)); auto.
      * intros idea_id.
        rewrite (interests_of_insert _ _ _ _ (Idea.append_interest x)) by auto.
        cbn [recorded_interest].
        destruct (decide (find_idea_index idea_id (IDEAS w) = Some idx)) as [Hf|Hf].
        -- destruct (find_idea_index_Some _ _ _ Hf) as (idea' & Hl' & Hid').
           assert (idea' = idea) by congruence. subst idea'.
           assert (E : (target =? idea_id) = true) by (apply Z.eqb_eq; congruence).
           rewrite E. unfold interests_of. rewrite Hf, Hl. reflexivity.
        -- assert (E : (target =? idea_id) = false).
           { apply Z.eqb_neq. intros ->. contradiction. }
           rewrite E, app_nil_r. reflexivity.
Qed.

(** *** Any run of requests *)

Lemma serve_all_cons r rs w :
  serve_all (r :: rs) w
  = (fst (serve r w) :: fst (serve_all rs (snd (serve r w))),
     snd (serve_all rs (snd (serve r w)))).
Proof.
  cbn [serve_all]. destruct (serve r w) as [resp w']. cbn [fst snd].
  destruct (serve_all rs w') as [resps w'']. reflexivity.
Qed.

Lemma serve_all_run rs w :
  sequential_ids (IDEAS w) ->
  sequential_ids (IDEAS (snd (serve_all rs w)))
  /\ idea_ids (IDEAS (snd (serve_all rs w)))
     = idea_ids (IDEAS w) ++ idea_ids (created_ideas (fst (serve_all rs w)))
  /\ forall idea_id,
       interests_of idea_id (IDEAS (snd (serve_all rs w)))
       = interests_of idea_id (IDEAS w)
         ++ recorded_interests idea_id rs (fst (serve_all rs w)).
Proof.
  revert w. induction rs as [|r rs IH]; intros w Hinv.
  - simpl. rewrite app_nil_r. split; [exact Hinv|]. split; [reflexivity|].
    intros idea_id. rewrite app_nil_r. reflexivity.
  - rewrite serve_all_cons. cbn [fst snd].
    destruct (serve_step r w Hinv) as (Hinv' & Hids & Hint).
    destruct (IH _ Hinv') as (Hinv'' & Hids' & Hint').
    split; [exact Hinv''|]. split.
    + rewrite Hids', Hids. unfold created_ideas, idea_ids. cbn [flat_map].
      rewrite fmap_app, app_assoc. reflexivity.
    + intros idea_id. rewrite Hint', Hint. cbn [recorded_interests].
      rewrite app_assoc. reflexivity.
Qed.

Lemma interests_of_sequential idea_id ideas :
  sequential_ids ideas ->
  interest_ids (interests_of idea_id ideas)
  = first_ids (length (interests_of idea_id ideas)).
Proof.
  intros [_ Hint]. unfold interests_of.
  destruct (find_idea_index idea_id ideas) as [idx|]; [|reflexivity].
  destruct (ideas !! idx) as [idea|] eqn:Hl; [|reflexivity].
  apply (proj1 (Forall_lookup _ _) Hint idx idea Hl).
Qed.

Lemma NoDup_first_ids n : NoDup (first_ids n).
Proof. apply NoDup_count_from. Qed.

(** *** The claims about the store *)

(** C7. Ids are assigned sequentially. After any run of requests from
    the empty store (idea submissions, question generations and interest
    submissions, accepted or not, with any outcome of the external
    service), the idea at position n of the store has id n and, within
    each idea, the interest at position k has id k; the ideas the run
    created carry the ids 1, 2, ... in creation order, and the interests it
    recorded for any one idea carry the ids 1, 2, ... in recording order,
    whatever was recorded for other ideas. Hence idea ids are unique in
    the store and interest ids are unique within their idea. In the
    sample run three ideas get the ids 1, 2, 3, then one interest for
    idea 2 gets id 1 and two interests for idea 1 get the ids 1 and 2. *)
Theorem ids_assigned_sequentially (rs : list request) :
  sequential_ids (IDEAS (snd (serve_all rs initial)))
  /\ idea_ids (created_ideas (fst (serve_all rs initial)))
     = first_ids (length (created_ideas (fst (serve_all rs initial))))
  /\ (forall idea_id,
        interest_ids (recorded_interests idea_id rs (fst (serve_all rs initial)))
        = first_ids (length (recorded_interests idea_id rs (fst (serve_all rs initial)))))
  /\ NoDup (idea_ids (IDEAS (snd (serve_all rs initial))))
  /\ Forall (fun idea => NoDup (interest_ids (Idea.interests idea)))
            (IDEAS (snd (serve_all rs initial)))
  /\ assigned_id <$>
       fst (serve_all
              [PostIdea (sample_idea (PStr "Python, Go"));
               PostIdea (sample_idea (PList [PStr "React"; PStr "Node"]));
               PostIdea (sample_idea PNone);
               SubmitInterest 2 (sample_interest (PStr "node, Vue") (PList [])) sample_personality;
               SubmitInterest 1 (sample_interest (PStr "go") (PList [])) sample_personality;
               SubmitInterest 1 (sample_interest (PList []) (PList [])) sample_personality]
              initial)
     = [Some 1; Some 2; Some 3; Some 1; Some 1; Some 2].
Proof.
  destruct (serve_all_run rs initial sequential_ids_nil) as (Hinv & Hids & Hint).
  assert (Hsame : idea_ids (IDEAS (snd (serve_all rs initial)))
                  = idea_ids (created_ideas (fst (serve_all rs initial))))
    by exact Hids.
  assert (Hlen : length (created_ideas (fst (serve_all rs initial)))
                 = length (IDEAS (snd (serve_all rs initial)))).
  { apply (f_equal length) in Hsame. unfold idea_ids in Hsame.
    rewrite !length_fmap in Hsame. symmetry. exact Hsame. }
  split; [exact Hinv|].
  split; [rewrite Hlen, <- Hsame; apply Hinv|].
  split.
  { intros idea_id. specialize (Hint idea_id).
    change (interests_of idea_id (IDEAS initial)) with (@nil Interest.t) in Hint.
    cbn [app] in Hint. rewrite <- Hint. apply interests_of_sequential, Hinv. }
  split; [rewrite (proj1 Hinv); apply NoDup_first_ids|].
  split.
  { eapply Forall_impl; [apply Hinv|]. cbn beta. intros idea ->. apply NoDup_first_ids. }
  vm_compute. reflexivity.
Qed.

Lemma rmap_all_ok {A B : Type} (f : A -> result B) (l : list A) :
  Forall (fun a => exists b, f a = Ok b) l -> exists bs, rmap f l = Ok bs.
Proof.
  induction 1 as [|a l [b Hb] _ [bs IH]]; [eexists; reflexivity|].
  cbn [rmap]. rewrite Hb. cbn [rbind]. rewrite IH. eexists. reflexivity.
Qed.

Lemma py_index_list_ok (l : list pyval) (i : nat) :
  (i < length l)%nat -> exists x, py_index (PList l) i = Ok x.
Proof.
  intros Hi. cbn [py_index].
  destruct (nth_error l i) as [x|] eqn:E; [eexists; reflexivity|].
  apply nth_error_None in E. lia.
Qed.






(** *** The stored tech stack *)

Lemma normalize_clean_tokens (tokens : list string) :
  Forall (fun t => PyStr.truthy t = true /\ PyStr.strip t = t) tokens ->
  normalize_tech_stack (as_pylist tokens) = tokens.
Proof.
  induction 1 as [|t rest [Ht Hs] _ IH]; [reflexivity|].
  unfold as_pylist, normalize_tech_stack in *. cbn [map List.filter py_str].
  rewrite Hs, Ht. cbn [map py_str]. rewrite Hs, IH. reflexivity.
Qed.

(** C9, as stated, fails: an idea submitted with the tech stack
    [Python, python] is created, and its stored stack holds both tokens,
    which are equal once lower-cased. *)
Lemma stored_stack_keeps_case_duplicates :
  exists idea,
    fst (serve (PostIdea (sample_idea (PStr "Python, python"))) initial)
    = IdeaCreated idea
    /\ Idea.tech_stack idea = ["Python"; "python"]
    /\ PyStr.lower <$> Idea.tech_stack idea = ["python"; "python"]
    /\ ~ NoDup (PyStr.lower <$> Idea.tech_stack idea).
Proof.
  eexists. split; [vm_compute; reflexivity|]. cbn [Idea.tech_stack].
  split; [reflexivity|]. split; [reflexivity|].
  intros H. apply NoDup_cons in H as [Hin _]. apply Hin. left.
Qed.

(** C9, amended. The stored tech stack of a created idea is the
    Normalizer's output on the submitted [tech_stack]: its trimmed,
    non-empty tokens, in input order and in their original casing, with
    duplicates kept. Normalizing the stored stack again, as the Skill
    Match Scorer does, gives it back unchanged. *)
Theorem stored_stack_is_normalized (data : pyval) (w : world) (idea : Idea.t) :
  fst (serve (PostIdea data) w) = IdeaCreated idea ->
  exists stack,
    py_getitem data "tech_stack" = Ok stack
    /\ Idea.tech_stack idea = normalizer_rule stack
    /\ Forall (fun t => PyStr.truthy t = true /\ PyStr.strip t = t)
              (Idea.tech_stack idea)
    /\ normalize_tech_stack (as_pylist (Idea.tech_stack idea)) = Idea.tech_stack idea
    /\ IDEAS (snd (serve (PostIdea data) w)) = IDEAS w ++ [idea].
Proof.
  unfold serve. cbn [handle fst snd].
  destruct (post_idea_cases data w)
    as [(r & -> & Hr)|(created & stack & -> & Hstack & _ & Htokens & _)];
    cbn [fst snd reply IDEAS].
  - intros H. rewrite H in Hr. discriminate Hr.
  - intros [= ->]. exists stack.
    assert (Hclean : Forall (fun t => PyStr.truthy t = true /\ PyStr.strip t = t)
                            (Idea.tech_stack idea))
      by (rewrite Htokens; apply normalize_tokens_clean).
    split; [exact Hstack|].
    split; [rewrite Htokens; apply normalize_is_rule|].
    split; [exact Hclean|].
    split; [apply normalize_clean_tokens, Hclean | reflexivity].
Qed.

Lemma stored_stack_is_normalized_witness :
  exists stack,
    py_getitem (sample_idea (PStr "Python, Go")) "tech_stack" = Ok stack
    /\ Idea.tech_stack sample_stored_idea = normalizer_rule stack
    /\ Forall (fun t => PyStr.truthy t = true /\ PyStr.strip t = t)
              (Idea.tech_stack sample_stored_idea)
    /\ normalize_tech_stack (as_pylist (Idea.tech_stack sample_stored_idea))
       = Idea.tech_stack sample_stored_idea
    /\ IDEAS (snd (serve (PostIdea (sample_idea (PStr "Python, Go"))) initial))
       = IDEAS initial ++ [sample_stored_idea].
Proof.
  apply (stored_stack_is_normalized (sample_idea (PStr "Python, Go")) initial
           sample_stored_idea).
  reflexivity.
Defined.
End Store.

(** ** More on the Normalizer *)

Section NormalizerMore.
Import PyStr.

(** A text without the separator is one field. *)
Lemma split_no_sep sep t : PyRepr.has_char sep t = false -> split sep t = [t].
Proof.
  induction t as [|c r IH]; [reflexivity|]. simpl.
  rewrite (Ascii.eqb_sym sep c). destruct (Ascii.eqb c sep); [discriminate|].
  simpl. intros H. rewrite (IH H). reflexivity.
Qed.

Lemma split_field_sep sep t rest :
  PyRepr.has_char sep t = false ->
  split sep (t ++ String sep rest)%string = t :: split sep rest.
Proof.
  induction t as [|c r IH]; simpl.
  - intros _. rewrite Ascii.eqb_refl. reflexivity.
  - rewrite (Ascii.eqb_sym sep c). destruct (Ascii.eqb c sep); [discriminate|].
    simpl. intros H. rewrite (IH H). reflexivity.
Qed.

(** Splitting undoes joining, for fields without the separator. *)
Lemma split_join sep t ts :
  Forall (fun x => PyRepr.has_char sep x = false) (t :: ts) ->
  split sep (join (String sep EmptyString) (t :: ts)) = t :: ts.
Proof.
  revert t. induction ts as [|u ts IH]; intros t H.
  - cbn [join]. apply split_no_sep. apply (Forall_inv H).
  - change (join (String sep EmptyString) (t :: u :: ts))
      with (t ++ String sep (join (String sep EmptyString) (u :: ts)))%string.
    rewrite split_field_sep by apply (Forall_inv H).
    rewrite IH by apply (Forall_inv_tail H). reflexivity.
Qed.

Lemma split_fields_no_sep sep s :
  Forall (fun x => PyRepr.has_char sep x = false) (split sep s).
Proof.
  induction s as [|c r IH]; simpl; [repeat constructor|].
  destruct (Ascii.eqb c sep) eqn:E; [constructor; [reflexivity | exact IH]|].
  assert (E' : Ascii.eqb sep c = false) by (rewrite Ascii.eqb_sym; exact E).
  destruct (split sep r) as [|w ws].
  - repeat constructor. simpl. rewrite E'. reflexivity.
  - apply Forall_cons in IH as [Hw Hws]. constructor; [|exact Hws].
    simpl. rewrite E', Hw. reflexivity.
Qed.

Lemma has_char_lstrip c s :
  PyRepr.has_char c s = false -> PyRepr.has_char c (lstrip s) = false.
Proof.
  induction s as [|d r IH]; [reflexivity|]. simpl.
  destruct (isspace d); [|auto].
  intros [_ H]%orb_false_iff. auto.
Qed.

Lemma has_char_rstrip c s :
  PyRepr.has_char c s = false -> PyRepr.has_char c (rstrip s) = false.
Proof.
  induction s as [|d r IH]; [reflexivity|]. simpl.
  intros [Hd Hr]%orb_false_iff. specialize (IH Hr).
  destruct (rstrip r) as [|e t].
  - destruct (isspace d); [reflexivity|]. simpl. rewrite Hd. reflexivity.
  - simpl in *. rewrite Hd. exact IH.
Qed.

Lemma has_char_strip c s :
  PyRepr.has_char c s = false -> PyRepr.has_char c (strip s) = false.
Proof. intros H. apply has_char_rstrip, has_char_lstrip, H. Qed.

Lemma normalize_pylist (l : list string) :
  normalize_tech_stack (as_pylist l)
  = List.filter truthy (map strip l).
Proof.
  rewrite normalize_is_rule. unfold as_pylist, normalizer_rule.
  rewrite map_map. reflexivity.
Qed.

(** X1. A comma-separated text and the list of its fields normalize
    alike: when no token holds a comma, [normalize_tech_stack] of the tokens
    joined by commas is [normalize_tech_stack] of the list of the tokens. *)
Theorem normalize_joined_text (tokens : list string) :
  Forall (fun t => PyRepr.has_char ","%char t = false) tokens ->
  normalize_tech_stack (PStr (join "," tokens))
  = normalize_tech_stack (as_pylist tokens).
Proof.
  intros H. rewrite normalize_pylist, normalize_is_rule. unfold normalizer_rule.
  destruct tokens as [|t ts]; [reflexivity|].
  rewrite (split_join ","%char t ts H). reflexivity.
Qed.

Lemma normalize_joined_text_witness :
  normalize_tech_stack (PStr (join "," [" React"; "node.js "; "  "; "Go"]))
  = normalize_tech_stack (as_pylist [" React"; "node.js "; "  "; "Go"]).
Proof.
  apply (normalize_joined_text [" React"; "node.js "; "  "; "Go"]).
  repeat constructor.
Defined.

(** X2. What the normalizer returns is clean: every token is non-empty
    and has no white space around it; from a text, no token holds a comma;
    and normalizing the returned list again returns it unchanged. *)
Theorem normalizer_output_clean (value : pyval) (s : string) :
  Forall (fun t => truthy t = true /\ strip t = t) (normalize_tech_stack value)
  /\ Forall (fun t => PyRepr.has_char ","%char t = false) (normalize_tech_stack (PStr s))
  /\ normalize_tech_stack (as_pylist (normalize_tech_stack value))
     = normalize_tech_stack value.
Proof.
  split; [apply normalize_tokens_clean|]. split.
  - rewrite normalize_is_rule. unfold normalizer_rule.
    apply Forall_forall. intros t Ht%list_elem_of_In%filter_In.
    destruct Ht as [Ht _]. apply in_map_iff in Ht as (x & <- & Hx).
    apply has_char_strip.
    apply (proj1 (Forall_forall _ _) (split_fields_no_sep ","%char s) x).
    apply list_elem_of_In, Hx.
  - apply normalize_clean_tokens, normalize_tokens_clean.
Qed.
End NormalizerMore.

(** ** More on the Skill Match Scorer *)

Section SkillMatchMore.
Import PyStr Binary64.

Lemma lower_idem s : lower (lower s) = lower s.
Proof. induction s as [|c r IH]; simpl; [|rewrite lower_char_idem, IH]; reflexivity. Qed.

Lemma truthy_lower s : truthy (lower s) = truthy s.
Proof. destruct s; reflexivity. Qed.

Lemma lower_char_comma c : Ascii.eqb (lower_char c) "," = Ascii.eqb c ",".
Proof. destruct c as [[] [] [] [] [] [] [] []]; reflexivity. Qed.

Lemma split_lower s : split "," (lower s) = map lower (split "," s).
Proof.
  induction s as [|c r IH]; [reflexivity|]. simpl.
  rewrite lower_char_comma, IH.
  destruct (Ascii.eqb c ","); [reflexivity|].
  destruct (split "," r); reflexivity.
Qed.

Lemma filter_truthy_lower (l : list string) :
  List.filter truthy (map lower l) = map lower (List.filter truthy l).
Proof.
  induction l as [|t l IH]; [reflexivity|]. simpl.
  rewrite truthy_lower, IH. destruct (truthy t); reflexivity.
Qed.

Lemma normalize_lower_list (l : list string) :
  normalize_tech_stack (as_pylist (map lower l))
  = map lower (normalize_tech_stack (as_pylist l)).
Proof.
  rewrite !normalize_pylist, <- filter_truthy_lower, !map_map.
  f_equal. apply map_ext. intros t. symmetry. apply lower_strip.
Qed.

Lemma normalize_lower_text (s : string) :
  normalize_tech_stack (PStr (lower s)) = map lower (normalize_tech_stack (PStr s)).
Proof.
  rewrite !normalize_is_rule. unfold normalizer_rule.
  rewrite split_lower, <- filter_truthy_lower, !map_map.
  f_equal. apply map_ext. intros t. symmetry. apply lower_strip.
Qed.

Lemma map_lower_twice (l : list string) : map lower (map lower l) = map lower l.
Proof. rewrite map_map. apply map_ext. intros t. apply lower_idem. Qed.

Lemma lowered_set_lower_list l : lowered_set (as_pylist (map lower l)) = lowered_set (as_pylist l).
Proof. unfold lowered_set. rewrite normalize_lower_list, map_lower_twice. reflexivity. Qed.

Lemma lowered_set_lower_text s : lowered_set (PStr (lower s)) = lowered_set (PStr s).
Proof. unfold lowered_set. rewrite normalize_lower_text, map_lower_twice. reflexivity. Qed.

Lemma lowered_set_normalized value :
  lowered_set (as_pylist (normalize_tech_stack value)) = lowered_set value.
Proof.
  unfold lowered_set.
  rewrite (normalize_clean_tokens _ (normalize_tokens_clean value)). reflexivity.
Qed.

Lemma skill_match_by_sets idea idea' builder builder' :
  lowered_set idea = lowered_set idea' ->
  lowered_set builder = lowered_set builder' ->
  compute_skill_match idea builder = compute_skill_match idea' builder'.
Proof. intros H1 H2. unfold compute_skill_match. rewrite H1, H2. reflexivity. Qed.

(** X3. [compute_skill_match] ignores letter case: lowering a text, or
    every item of a list of strings, on the idea's side or on the builder's,
    leaves the ratio as it is. *)
Theorem skill_match_ignores_case (s : string) (l : list string) (other : pyval) :
  compute_skill_match (PStr (lower s)) other = compute_skill_match (PStr s) other
  /\ compute_skill_match other (PStr (lower s)) = compute_skill_match other (PStr s)
  /\ compute_skill_match (as_pylist (map lower l)) other
     = compute_skill_match (as_pylist l) other
  /\ compute_skill_match other (as_pylist (map lower l))
     = compute_skill_match other (as_pylist l).
Proof.
  repeat split; apply skill_match_by_sets;
    auto using lowered_set_lower_text, lowered_set_lower_list.
Qed.

(** X4. Scoring normalized stacks, which is what [evaluate_builder]
    does with the stored lists, gives the ratio of the raw values: the
    normalization done by the handlers does not change the skill match. *)
Theorem skill_match_of_normalized (idea builder : pyval) :
  compute_skill_match (as_pylist (normalize_tech_stack idea))
                      (as_pylist (normalize_tech_stack builder))
  = compute_skill_match idea builder
  /\ compute_skill_match (as_pylist (normalize_tech_stack idea)) builder
     = compute_skill_match idea builder.
Proof.
  split; apply skill_match_by_sets; auto using lowered_set_normalized.
Qed.

Lemma skill_match_value idea builder :
  size (lowered_set idea) <> 0%nat ->
  compute_skill_match idea builder
  = Ok (fdiv (inject_Z (Z.of_nat (size (lowered_set idea ∩ lowered_set builder))))
             (inject_Z (Z.of_nat (size (lowered_set idea))))).
Proof.
  intros H. rewrite skill_match_is_rule. unfold skill_match_rule.
  rewrite !token_set_lowered.
  destruct (Nat.eqb_spec (size (lowered_set idea)) 0); [contradiction | reflexivity].
Qed.

(** X5. When the idea names at least one technology and the builder's
    lowered tokens include all of the idea's, [compute_skill_match] returns
    1.0. *)
Theorem skill_match_full_coverage (idea builder : pyval) :
  lowered_set idea <> ∅ ->
  lowered_set idea ⊆ lowered_set builder ->
  exists r, compute_skill_match idea builder = Ok r /\ (r == 1)%Q.
Proof.
  intros Hne Hsub.
  assert (Hsize : size (lowered_set idea) <> 0%nat).
  { intros E. apply Hne. apply size_zero_empty, E. }
  eexists. split; [apply skill_match_value, Hsize|].
  replace (lowered_set idea ∩ lowered_set builder) with (lowered_set idea)
    by (symmetry; apply subseteq_intersection_1_L, Hsub).
  unfold fdiv. rewrite <- fl_one. apply fl_proper.
  unfold Qdiv. apply Qmult_inv_r. intros E.
  apply Hsize. unfold Qeq in E. simpl in E. lia.
Qed.

Lemma skill_match_full_coverage_witness :
  exists r,
    compute_skill_match (PStr "React, node") (PList [PStr "Node"; PStr "REACT"; PStr "Vue"])
    = Ok r /\ (r == 1)%Q.
Proof.
  apply (skill_match_full_coverage
           (PStr "React, node") (PList [PStr "Node"; PStr "REACT"; PStr "Vue"])).
  - vm_compute. discriminate.
  - apply (bool_decide_unpack _). vm_compute. exact I.
Defined.

(** X6. More skills never lower the ratio: if the builder's lowered
    tokens are among those of a second builder, the second ratio is at least
    the first, for the same idea. *)
Theorem skill_match_monotone (idea builder builder' : pyval) :
  lowered_set builder ⊆ lowered_set builder' ->
  exists r r',
    compute_skill_match idea builder = Ok r
    /\ compute_skill_match idea builder' = Ok r'
    /\ (r <= r')%Q.
Proof.
  intros Hsub.
  destruct (Nat.eq_dec (size (lowered_set idea)) 0) as [E|NE].
  - exists 0%Q, 0%Q. unfold compute_skill_match. rewrite E. cbn [Nat.eqb].
    repeat split. apply Qle_refl.
  - do 2 eexists. split; [apply skill_match_value, NE|].
    split; [apply skill_match_value, NE|].
    apply fl_mono. unfold Qdiv. apply Qmult_le_compat_r.
    + rewrite <- Zle_Qle. apply inj_le, subseteq_size.
      apply intersection_mono_l, Hsub.
    + apply Qlt_le_weak, Qinv_lt_0_compat. rewrite <- (Zlt_Qlt 0). lia.
Qed.

Lemma skill_match_monotone_witness :
  exists r r',
    compute_skill_match (PStr "python, go, rust") (PStr "Go") = Ok r
    /\ compute_skill_match (PStr "python, go, rust") (PStr "go, Rust, java") = Ok r'
    /\ (r <= r')%Q.
Proof.
  apply (skill_match_monotone (PStr "python, go, rust") (PStr "Go") (PStr "go, Rust, java")).
  apply (bool_decide_unpack _). vm_compute. exact I.
Defined.
End SkillMatchMore.

(** ** More on the Answer Quality Scorer *)

Section AnswerQualityMore.
Import PyStr Binary64.

Lemma string_app_nil_r s : (s ++ EmptyString)%string = s.
Proof.
  induction s as [|c r IH]; [reflexivity|].
  change (String c (r ++ EmptyString)%string = String c r). rewrite IH. reflexivity.
Qed.

Lemma prefix_app t s : String.prefix t (t ++ s)%string = true.
Proof.
  induction t as [|c r IH]; [destruct s; reflexivity|].
  change (String.prefix (String c r) (String c (r ++ s)%string) = true).
  cbn [String.prefix]. destruct (ascii_dec c c); [exact IH | contradiction].
Qed.

Lemma contains_prefix t x : String.prefix t x = true -> contains t x = true.
Proof. intros H. destruct x; cbn [contains]; rewrite H; reflexivity. Qed.

Lemma contains_cons t c r : contains t r = true -> contains t (String c r) = true.
Proof. intros H. cbn [contains]. rewrite H. apply orb_true_r. Qed.

Lemma contains_app p t s : contains t (p ++ t ++ s)%string = true.
Proof.
  induction p as [|c r IH].
  - apply contains_prefix. exact (prefix_app t s).
  - apply (contains_cons t c (r ++ t ++ s)%string), IH.
Qed.

Lemma lstrip_app_keep p t s :
  t <> EmptyString -> lstrip t = t ->
  exists p', lstrip (p ++ t ++ s)%string = (p' ++ t ++ s)%string.
Proof.
  intros Hne Ht. destruct t as [|c r]; [contradiction|].
  pose proof (lstrip_head _ _ _ Ht) as Hc.
  induction p as [|d p IH].
  - change (EmptyString ++ String c r ++ s)%string with (String c (r ++ s)%string).
    cbn [lstrip]. rewrite Hc. exists EmptyString. reflexivity.
  - change (String d p ++ String c r ++ s)%string
      with (String d (p ++ String c r ++ s)%string).
    cbn [lstrip]. destruct (isspace d); [exact IH|]. exists (String d p). reflexivity.
Qed.

Lemma rstrip_app a b :
  rstrip (a ++ b)%string
  = match rstrip b with
    | EmptyString => rstrip a
    | String d b' => (a ++ String d b')%string
    end.
Proof.
  induction a as [|c a IH].
  - change (EmptyString ++ b)%string with b. destruct (rstrip b); reflexivity.
  - change (String c a ++ b)%string with (String c (a ++ b)%string).
    cbn [rstrip]. rewrite IH. destruct (rstrip b) as [|d b']; [reflexivity|].
    destruct a; reflexivity.
Qed.

Lemma rstrip_app_keep q t s :
  t <> EmptyString -> rstrip t = t ->
  exists s', rstrip (q ++ t ++ s)%string = (q ++ t ++ s')%string.
Proof.
  intros Hne Ht.
  assert (Hts : exists s', rstrip (t ++ s)%string = (t ++ s')%string).
  { rewrite rstrip_app. destruct (rstrip s) as [|d s'] eqn:E.
    - exists EmptyString. rewrite Ht, string_app_nil_r. reflexivity.
    - eexists. reflexivity. }
  destruct Hts as [s' Hs']. exists s'.
  rewrite rstrip_app, Hs'.
  destruct t as [|c r]; [contradiction | reflexivity].
Qed.

(** A clean phrase inside a text is still inside the stripped text. *)
Lemma contains_strip p t s :
  t <> EmptyString -> lstrip t = t -> rstrip t = t ->
  contains t (strip (p ++ t ++ s)%string) = true.
Proof.
  intros Hne Hl Hr. unfold strip.
  destruct (lstrip_app_keep p t s Hne Hl) as [p' ->].
  destruct (rstrip_app_keep p' t s Hne Hr) as [s' ->].
  apply contains_app.
Qed.

Lemma bad_tokens_clean :
  Forall (fun t => t <> EmptyString /\ lstrip t = t /\ rstrip t = t /\ lower t = t)
         bad_tokens.
Proof. repeat constructor; discriminate. Qed.

(** X7. A low-effort phrase anywhere in the text of an answer, in
    any letter case and also inside a longer word, gives the answer the
    score 0.0 whatever its length. *)
Theorem low_effort_phrase_scores_zero (ans : pyval) (tok before after : string) :
  In tok bad_tokens ->
  lower (py_str ans) = (before ++ tok ++ after)%string ->
  answer_score ans = 0%Q.
Proof.
  intros Hin Htext. unfold answer_score.
  rewrite lower_strip, Htext.
  pose proof (proj1 (Forall_forall _ _) bad_tokens_clean tok
                (proj2 (list_elem_of_In _ _) Hin)) as (Hne & Hl & Hr & _).
  assert (E : existsb (fun t => contains t (strip (before ++ tok ++ after)%string))
                      bad_tokens = true).
  { apply existsb_exists. exists tok. split; [exact Hin|].
    apply contains_strip; assumption. }
  rewrite E. reflexivity.
Qed.

Lemma low_effort_phrase_scores_zero_witness :
  answer_score
    (PStr "  I built an interNAtional payments platform used by forty banks over six years. ")
  = 0%Q.
Proof.
  apply (low_effort_phrase_scores_zero
           (PStr "  I built an interNAtional payments platform used by forty banks over six years. ")
           "na" "  i built an inter" "tional payments platform used by forty banks over six years. ").
  - cbn. tauto.
  - reflexivity.
Defined.

(** X8. [compute_answer_quality] on a value of any type: a falsy value
    (None, False, 0, 0.0, an empty text, list or dictionary) gives 0.0
    without being iterated; a truthy value is iterated (a text by
    characters, a dictionary by keys) and scored as the list of its
    elements; a truthy value that cannot be iterated (True, a non-zero
    number) raises TypeError. *)
Theorem answer_quality_of_any_value (answers : pyval) :
  compute_answer_quality answers
  = (if py_truth answers
     then match py_iter answers with
          | Ok items => compute_answer_quality (PList items)
          | Raise e => Raise e
          end
     else Ok 0%Q)
  /\ map compute_answer_quality
         [PNone; PBool false; PInt 0; PFloat 0; PStr EmptyString; PList []; PDict []]
     = [Ok 0%Q; Ok 0%Q; Ok 0%Q; Ok 0%Q; Ok 0%Q; Ok 0%Q; Ok 0%Q]
  /\ map compute_answer_quality [PBool true; PInt 7; PFloat 1.5]
     = [Raise TypeError; Raise TypeError; Raise TypeError].
Proof.
  split; [|split; reflexivity].
  unfold compute_answer_quality.
  destruct (py_truth answers) eqn:Ht; [|reflexivity]. cbn [negb].
  destruct (py_iter answers) as [items|e] eqn:Hi; [|reflexivity]. cbn [rbind].
  assert (Hne : py_truth (PList items) = true).
  { destruct answers; try discriminate; cbn in Hi; injection Hi as <-.
    - destruct s; [discriminate | reflexivity].
    - exact Ht.
    - destruct d; [discriminate | reflexivity]. }
  rewrite Hne. reflexivity.
Qed.

End AnswerQualityMore.

(** ** More on the readiness combiner *)

Section ReadinessMore.
Import Binary64.

Lemma py_min_mono a a' b b' :
  (a <= a')%Q -> (b <= b')%Q -> (py_min a b <= py_min a' b')%Q.
Proof.
  intros Ha Hb. unfold py_min.
  destruct (Qlt_le_dec b a), (Qlt_le_dec b' a'); lra.
Qed.

Lemma round_nd_nonneg x nd : (0 <= x)%Q -> (0 <= round_nd x nd)%Q.
Proof.
  intros Hx. unfold round_nd. apply fl_nonneg.
  apply Qle_shift_div_l; [apply pow10_pos|]. rewrite Qmult_0_l.
  rewrite <- (Zle_Qle 0). rewrite <- (rne_inject_Z 0). apply rne_mono.
  apply Qmult_le_0_compat; [exact Hx | apply Qlt_le_weak, pow10_pos].
Qed.

Lemma readiness_score_of_nonneg s a :
  (0 <= s)%Q -> (0 <= a)%Q -> (0 <= readiness_score_of s a)%Q.
Proof.
  intros Hs Ha. unfold readiness_score_of, fmul, fadd.
  apply fl_nonneg. apply Qmult_le_0_compat; [|lra].
  apply fl_nonneg.
  assert (0 <= fl (s * fl 0.55))%Q
    by (apply fl_nonneg, Qmult_le_0_compat; [exact Hs | apply fl_nonneg; lra]).
  assert (0 <= fl (a * fl 0.45))%Q
    by (apply fl_nonneg, Qmult_le_0_compat; [exact Ha | apply fl_nonneg; lra]).
  lra.
Qed.

Lemma py_min_nonneg a b : (0 <= a)%Q -> (0 <= b)%Q -> (0 <= py_min a b)%Q.
Proof. intros Ha Hb. unfold py_min. destruct (Qlt_le_dec b a); assumption. Qed.

Lemma fl_2_5_le_3 : (fl 2.5 <= fl 3.0)%Q.
Proof. apply Qle_bool_iff. vm_compute. reflexivity. Qed.

(** X9. The readiness score is non-negative and monotone in both
    inputs: for [0 <= s <= s'] and [0 <= a <= a'] the score of [(s, a)] is
    at most the score of [(s', a')], so the two guardrails never make a
    better input score lower. *)
Theorem readiness_monotone (s s' a a' : Q) :
  (0 <= s <= s')%Q -> (0 <= a <= a')%Q ->
  (0 <= compute_final_readiness s a)%Q
  /\ (compute_final_readiness s a <= compute_final_readiness s' a')%Q.
Proof.
  intros [Hs Hss] [Ha Haa].
  pose proof (readiness_score_of_mono s s' a a' Hss Haa) as Hscore.
  pose proof (readiness_score_of_nonneg s a Hs Ha) as Hpos.
  assert (H25 : (0 <= fl 2.5)%Q) by (apply fl_nonneg; lra).
  assert (H30 : (0 <= fl 3.0)%Q) by (apply fl_nonneg; lra).
  unfold compute_final_readiness.
  fold (readiness_score_of s a). fold (readiness_score_of s' a').
  split.
  { destruct (Qeq_bool s 0); [|destruct (ltb a (fl 0.25))];
      apply round_nd_nonneg; auto using py_min_nonneg. }
  destruct (Qeq_bool s 0) eqn:Es.
  - destruct (Qeq_bool s' 0); [|destruct (ltb a' (fl 0.25))]; apply round_nd_mono.
    + apply py_min_mono; [exact Hscore | apply Qle_refl].
    + apply py_min_mono; [exact Hscore | apply fl_2_5_le_3].
    + eapply Qle_trans; [apply py_min_le_l | exact Hscore].
  - assert (Es' : Qeq_bool s' 0 = false).
    { destruct (Qeq_bool s' 0) eqn:E; [|reflexivity].
      apply Qeq_bool_iff in E.
      assert (s == 0)%Q by lra. apply Qeq_bool_iff in H. congruence. }
    rewrite Es'.
    destruct (ltb a (fl 0.25)) eqn:Ea.
    + destruct (ltb a' (fl 0.25)); apply round_nd_mono.
      * apply py_min_mono; [exact Hscore | apply Qle_refl].
      * eapply Qle_trans; [apply py_min_le_l | exact Hscore].
    + assert (Ea' : ltb a' (fl 0.25) = false).
      { apply ltb_false. apply ltb_false in Ea. lra. }
      rewrite Ea'. apply round_nd_mono, Hscore.
Qed.

Lemma readiness_monotone_witness :
  (0 <= compute_final_readiness 0 (fl 0.2))%Q
  /\ (compute_final_readiness 0 (fl 0.2) <= compute_final_readiness 0.5 (fl 0.9))%Q.
Proof.
  apply (readiness_monotone 0 0.5 (fl 0.2) (fl 0.9)).
  - split; apply Qle_bool_iff; vm_compute; reflexivity.
  - split; apply Qle_bool_iff; vm_compute; reflexivity.
Defined.
End ReadinessMore.

(** ** The range of the answer quality *)

Section AnswerQualityRange.
Import Binary64.
Local Open Scope Q_scope.

Lemma rne_upper q : inject_Z (rne q) <= q + (1 # 2).
Proof.
  unfold rne.
  pose proof (Qfloor_le q) as Hlo. pose proof (Qlt_floor q) as Hhi.
  rewrite inject_Z_plus in Hhi. change (inject_Z 1) with 1 in Hhi.
  destruct (Qcompare (q - inject_Z (Qfloor q)) (1 # 2)) eqn:C.
  - apply Qeq_alt in C. destruct (Z.even (Qfloor q)).
    + lra.
    + rewrite inject_Z_plus. change (inject_Z 1) with 1. lra.
  - lra.
  - rewrite <- Qgt_alt in C. rewrite inject_Z_plus. change (inject_Z 1) with 1. lra.
Qed.

Lemma unit_roundoff_pow : unit_roundoff == 2 ^ (-53).
Proof. reflexivity. Qed.

Lemma fl_upper x : 1 # 8 <= x -> fl x <= x * (1 + unit_roundoff).
Proof.
  intros Hx. assert (Hpos : 0 < x) by lra.
  unfold fl. rewrite (proj1 (Qgt_alt x 0) Hpos). rewrite fl_pos_eq.
  destruct (ilog2_spec x Hpos) as [Hlo _].
  assert (He : ulp_exp x = (ilog2 x - 52)%Z).
  { unfold ulp_exp. apply Z.max_l.
    assert (2 ^ (-3) < 2 ^ (ilog2 x + 1)).
    { destruct (ilog2_spec x Hpos) as [_ Hhi]. change (2 ^ (-3)) with (1 # 8). lra. }
    apply pow2_lt_inv in H. lia. }
  rewrite He.
  pose proof (pow2_pos (ilog2 x - 52)) as Hp.
  pose proof (rne_upper (x / 2 ^ (ilog2 x - 52))) as Hr.
  assert (Hu : 2 ^ (ilog2 x - 52) <= x * (2 * unit_roundoff)).
  { replace (ilog2 x - 52)%Z with (ilog2 x + (-52))%Z by lia.
    rewrite pow2_add.
    assert (E52 : 2 ^ (-52) == 2 * unit_roundoff) by reflexivity.
    rewrite E52. apply Qmult_le_compat_r; [exact Hlo | discriminate]. }
  assert (Hm : inject_Z (rne (x / 2 ^ (ilog2 x - 52))) * 2 ^ (ilog2 x - 52)
               <= (x / 2 ^ (ilog2 x - 52) + (1 # 2)) * 2 ^ (ilog2 x - 52)).
  { apply Qmult_le_compat_r; [exact Hr | lra]. }
  assert (E : (x / 2 ^ (ilog2 x - 52) + (1 # 2)) * 2 ^ (ilog2 x - 52)
              == x + (1 # 2) * 2 ^ (ilog2 x - 52)).
  { field. intros F. rewrite F in Hp. discriminate Hp. }
  rewrite E in Hm. lra.
Qed.

Lemma fl_upper_of y z : 0 <= y <= z -> 1 # 8 <= z -> fl y <= z * (1 + unit_roundoff).
Proof.
  intros [_ Hyz] Hz. eapply Qle_trans; [apply fl_mono, Hyz | apply fl_upper, Hz].
Qed.

Lemma growth_succ k : growth (S k) == growth k * (1 + unit_roundoff).
Proof.
  unfold growth. rewrite Nat2Z.inj_succ, <- Z.add_1_r.
  rewrite Qpower_plus by discriminate. reflexivity.
Qed.

Lemma growth_ge_1 k : 1 <= growth k.
Proof. unfold growth. apply Qpower_1_le; [discriminate | lia]. Qed.

Lemma growth_bound k :
  2 * inject_Z (Z.of_nat k) * unit_roundoff <= 1 ->
  growth k <= 1 + 2 * inject_Z (Z.of_nat k) * unit_roundoff.
Proof.
  induction k as [|k IH]; intros Hk.
  - apply Qle_bool_iff. reflexivity.
  - rewrite growth_succ.
    rewrite Nat2Z.inj_succ, <- Z.add_1_r, inject_Z_plus in *.
    change (inject_Z 1) with 1 in *.
    assert (Hk0 : 0 <= inject_Z (Z.of_nat k)) by (rewrite <- (Zle_Qle 0); lia).
    assert (Hu : 0 < unit_roundoff) by reflexivity.
    assert (IH' : growth k <= 1 + 2 * inject_Z (Z.of_nat k) * unit_roundoff)
      by (apply IH; nra).
    pose proof (growth_ge_1 k).
    nra.
Qed.

(** The float sum of [k] numbers of [[0, c]] after [m] such numbers. *)
Lemma fold_fadd_bound (c : Q) (xs : list Q) :
  1 # 8 <= c ->
  Forall (fun x => 0 <= x <= c) xs ->
  forall (m : nat) (acc : Q),
    0 <= acc <= inject_Z (Z.of_nat m) * c * growth m ->
    0 <= fold_left fadd xs acc
         <= inject_Z (Z.of_nat (m + length xs)) * c * growth (m + length xs).
Proof.
  intros Hc. induction 1 as [|x xs [Hx0 Hxc] _ IH]; intros m acc [Hacc0 Hacc].
  - simpl. rewrite Nat.add_0_r. split; assumption.
  - cbn [fold_left length].
    replace (m + S (length xs))%nat with (S m + length xs)%nat by lia.
    apply IH. split; [apply fl_nonneg; lra|].
    unfold fadd.
    eapply Qle_trans.
    + apply (fl_upper_of _ (inject_Z (Z.of_nat m) * c * growth m + c)); [lra|].
      assert (0 <= inject_Z (Z.of_nat m) * c * growth m) by lra. lra.
    + rewrite growth_succ, Nat2Z.inj_succ, <- Z.add_1_r, inject_Z_plus.
      change (inject_Z 1) with 1.
      assert (Hm0 : 0 <= inject_Z (Z.of_nat m)) by (rewrite <- (Zle_Qle 0); lia).
      pose proof (growth_ge_1 m) as Hg. assert (Hu : 0 < unit_roundoff) by reflexivity.
      assert (H1 : c <= c * growth m) by nra.
      assert (H2 : inject_Z (Z.of_nat m) * c * growth m + c
                   <= (inject_Z (Z.of_nat m) + 1) * c * growth m) by lra.
      assert (E : (inject_Z (Z.of_nat m) + 1) * c * (growth m * (1 + unit_roundoff))
                  == (inject_Z (Z.of_nat m) + 1) * c * growth m * (1 + unit_roundoff))
        by ring.
      rewrite E. apply Qmult_le_compat_r; [exact H2 | lra].
Qed.

Lemma answer_score_range ans : 0 <= answer_score ans <= fl 0.9.
Proof.
  unfold answer_score.
  destruct (existsb _ _); [|destruct (_ <? 20)%nat; [|destruct (_ <? 50)%nat]];
    split; apply Qle_bool_iff; vm_compute; reflexivity.
Qed.

Lemma round2_top : round_nd 0.9049 2 == fl 0.9.
Proof. apply Qeq_bool_iff. vm_compute. reflexivity. Qed.

Lemma answer_quality_rule_range (answers : list pyval) :
  (Z.of_nat (length answers) <= 10 ^ 12)%Z ->
  0 <= answer_quality_rule answers <= fl 0.9.
Proof.
  intros Hlen.
  destruct answers as [|ans rest]; [split; apply Qle_bool_iff; vm_compute; reflexivity|].
  unfold answer_quality_rule. rewrite <- answer_scores_are_rule.
  set (scores := map answer_score (ans :: rest)).
  set (n := length scores).
  assert (Hn : n = length (ans :: rest)) by (subst n scores; apply length_map).
  assert (Hn1 : (1 <= Z.of_nat n <= 10 ^ 12)%Z) by (rewrite Hn; cbn [length] in *; lia).
  assert (Hc : 1 # 8 <= fl 0.9) by (apply Qle_bool_iff; vm_compute; reflexivity).
  assert (Hscores : Forall (fun x => 0 <= x <= fl 0.9) scores).
  { subst scores. apply Forall_forall. intros x Hx%list_elem_of_In%in_map_iff.
    destruct Hx as (a & <- & _). apply answer_score_range. }
  destruct (fold_fadd_bound (fl 0.9) scores Hc Hscores 0 0) as [Hs0 Hs].
  { split; apply Qle_bool_iff; vm_compute; reflexivity. }
  fold (py_sum scores) in Hs0, Hs. cbn [Nat.add] in Hs. fold n in Hs.
  assert (HnQ : 1 <= inject_Z (Z.of_nat n)) by (rewrite <- (Zle_Qle 1); lia).
  assert (HnQ' : inject_Z (Z.of_nat n) <= inject_Z (10 ^ 12)) by (rewrite <- Zle_Qle; lia).
  split.
  - apply round_nd_nonneg. unfold fdiv. apply fl_nonneg.
    apply Qle_shift_div_l; lra.
  - rewrite <- round2_top. apply round_nd_mono.
    unfold fdiv.
    eapply Qle_trans.
    + apply (fl_upper_of _ (fl 0.9 * growth n)).
      * split; [apply Qle_shift_div_l; lra|].
        apply Qle_shift_div_r; [lra|]. lra.
      * pose proof (growth_ge_1 n). nra.
    + assert (Hg : growth n <= 1 + 2 * inject_Z (Z.of_nat n) * unit_roundoff).
      { apply growth_bound.
        assert (2 * inject_Z (10 ^ 12) * unit_roundoff <= 1) by (apply Qle_bool_iff; vm_compute; reflexivity).
        assert (0 < unit_roundoff) by reflexivity. nra. }
      assert (Hg' : growth n <= 1 + 2 * inject_Z (10 ^ 12) * unit_roundoff).
      { assert (0 < unit_roundoff) by reflexivity. nra. }
      assert (Hfin : fl 0.9 * (1 + 2 * inject_Z (10 ^ 12) * unit_roundoff)
                     * (1 + unit_roundoff) <= 0.9049)
        by (apply Qle_bool_iff; vm_compute; reflexivity).
      assert (0 <= fl 0.9) by lra.
      assert (0 < unit_roundoff) by reflexivity.
      pose proof (growth_ge_1 n).
      eapply Qle_trans; [|exact Hfin].
      apply Qmult_le_compat_r; [|lra].
      apply Qmult_le_l; [lra | exact Hg'].
Qed.

(** X10. For up to 10^12 answers, [compute_answer_quality] returns a value
    between 0 and 0.9: the rounding errors of the float sum never carry the
    mean over the largest score. *)
Theorem answer_quality_range (answers : list pyval) :
  (Z.of_nat (length answers) <= 10 ^ 12)%Z ->
  exists q,
    compute_answer_quality (PList answers) = Ok q /\ 0 <= q <= fl 0.9.
Proof.
  intros Hlen. exists (answer_quality_rule answers).
  split; [apply answer_quality_is_rule | apply answer_quality_rule_range, Hlen].
Qed.

Lemma answer_quality_range_witness :
  exists q,
    compute_answer_quality
      (PList [PStr "idk"; PInt 3; PStr "I have led two migrations from monoliths to services."])
    = Ok q /\ 0 <= q <= fl 0.9.
Proof.
  apply (answer_quality_range
           [PStr "idk"; PInt 3; PStr "I have led two migrations from monoliths to services."]).
  vm_compute. discriminate.
Defined.

Lemma readiness_upper s a :
  s <= 1 -> a <= fl 0.9 -> compute_final_readiness s a <= fl 9.6.
Proof.
  intros Hs Ha.
  eapply Qle_trans; [apply readiness_le_rounded_score|].
  eapply Qle_trans;
    [apply round_nd_mono, (readiness_score_of_mono _ 1 _ (fl 0.9)); assumption|].
  apply Qle_bool_iff. vm_compute. reflexivity.
Qed.

Lemma readiness_nonneg s a :
  0 <= s -> 0 <= a -> 0 <= compute_final_readiness s a.
Proof.
  intros Hs Ha.
  pose proof (readiness_score_of_nonneg s a Hs Ha) as Hpos.
  assert (H25 : 0 <= fl 2.5) by (apply fl_nonneg; lra).
  assert (H30 : 0 <= fl 3.0) by (apply fl_nonneg; lra).
  unfold compute_final_readiness. fold (readiness_score_of s a).
  destruct (Qeq_bool s 0); [|destruct (ltb a (fl 0.25))];
    apply round_nd_nonneg; auto using py_min_nonneg.
Qed.

(** X11. The three scores of one evaluation are in range: for up to
    10^12 answers, the skill match is in [0, 1], the answer quality in
    [0, 0.9], and the readiness computed from the two in [0, 9.6]. *)
Theorem engine_scores_in_range (idea builder : pyval) (answers : list pyval) :
  (Z.of_nat (length answers) <= 10 ^ 12)%Z ->
  exists s a,
    compute_skill_match idea builder = Ok s
    /\ compute_answer_quality (PList answers) = Ok a
    /\ 0 <= s <= 1
    /\ 0 <= a <= fl 0.9
    /\ 0 <= compute_final_readiness s a <= fl 9.6.
Proof.
  intros Hlen.
  exists (skill_match_rule idea builder), (answer_quality_rule answers).
  pose proof (skill_match_rule_unit idea builder) as [Hs0 Hs1].
  pose proof (answer_quality_rule_range answers Hlen) as [Ha0 Ha1].
  split; [apply skill_match_is_rule|].
  split; [apply answer_quality_is_rule|].
  split; [split; assumption|]. split; [split; assumption|].
  split; [apply readiness_nonneg | apply readiness_upper]; assumption.
Qed.

Lemma engine_scores_in_range_witness :
  exists s a,
    compute_skill_match (PStr "React, Node") (PList [PStr "node"; PStr "Vue"]) = Ok s
    /\ compute_answer_quality
         (PList [PStr "I have built several production Node backends over the past three years."])
       = Ok a
    /\ 0 <= s <= 1
    /\ 0 <= a <= fl 0.9
    /\ 0 <= compute_final_readiness s a <= fl 9.6.
Proof.
  apply (engine_scores_in_range
           (PStr "React, Node") (PList [PStr "node"; PStr "Vue"])
           [PStr "I have built several production Node backends over the past three years."]).
  vm_compute. discriminate.
Defined.
End AnswerQualityRange.

(** ** More on the handlers *)

Section Handlers.
Local Open Scope Z_scope.

Ltac use_known :=
  repeat match goal with
    | H : ?t = Ok _ |- context [?t] => rewrite H
    | H : ?t = Raise _ |- context [?t] => rewrite H
    | H : ?t = Some _ |- context [?t] => rewrite H
    | H : ?t = None |- context [?t] => rewrite H
    | H : ?t = true |- context [?t] => rewrite H
    | H : ?t = false |- context [?t] => rewrite H
    end.

Ltac no_inner_match t :=
  lazymatch t with
  | context [match _ with Ok _ => _ | Raise _ => _ end] => fail
  | context [match _ with Some _ => _ | None => _ end] => fail
  | context [if _ then _ else _] => fail
  | _ => idtac
  end.

Ltac split_result :=
  match goal with
  | |- context [if ?b then _ else _] =>
      no_inner_match b; let E := fresh "E" in destruct b eqn:E
  | |- context [match ?o with Some _ => _ | None => _ end] =>
      no_inner_match o; let E := fresh "E" in destruct o eqn:E
  | |- context [match ?r with Ok _ => _ | Raise _ => _ end] =>
      no_inner_match r; let E := fresh "E" in destruct r eqn:E
  end.

Ltac reduce_step := cbn [IDEAS engine_log length Nat.eqb negb].

Ltac run_handler :=
  unfold evaluate_builder, update_idea, ideas_at,
    bind, lift, ret, get_ideas, set_ideas, tell;
  reduce_step;
  repeat (first [progress use_known | split_result]; reduce_step).

(** *** [get_ai_personality] and [evaluate_builder] *)

Lemma rmap_raises {A B : Type} (f : A -> result B) (before after : list A) (a : A) e :
  Forall (fun x => exists b, f x = Ok b) before ->
  f a = Raise e ->
  rmap f (before ++ a :: after) = Raise e.
Proof.
  induction 1 as [|x before [b Hb] _ IH]; intros Ha.
  - cbn [app rmap]. rewrite Ha. reflexivity.
  - cbn [app rmap]. rewrite Hb. cbn [rbind]. rewrite (IH Ha). reflexivity.
Qed.

Lemma seq_split_at (k n : nat) :
  (k < n)%nat -> seq 0 n = seq 0 k ++ k :: seq (S k) (n - S k).
Proof.
  intros Hk. replace n with (k + S (n - S k))%nat at 1 by lia.
  rewrite seq_app. reflexivity.
Qed.

Lemma get_ai_personality_enough_questions (qs ans : list pyval) (ext : result pyval) :
  (length ans <= length qs)%nat ->
  get_ai_personality (PList qs) (PList ans) ext = ext.
Proof.
  intros Hle. unfold get_ai_personality. cbn [py_len rbind].
  match goal with
  | |- context [rmap ?f ?l] => destruct (rmap_all_ok f l) as [pairs ->]; [|reflexivity]
  end.
  apply Forall_forall. intros i Hi%list_elem_of_In%in_seq.
  destruct (py_index_list_ok qs i) as [q ->]; [lia|].
  destruct (py_index_list_ok ans i) as [a ->]; [lia|].
  eexists. reflexivity.
Qed.

(** X12. [get_ai_personality] builds its prompt by indexing the questions
    at every position of the answers: with at most as many answers as
    questions the outcome is that of the client call, with more answers it
    raises IndexError and the client is not reached. *)
Theorem personality_prompt_needs_questions (qs ans : list pyval) (ext : result pyval) :
  get_ai_personality (PList qs) (PList ans) ext
  = if (length ans <=? length qs)%nat then ext else Raise IndexError.
Proof.
  destruct (Nat.leb_spec (length ans) (length qs)) as [Hle|Hlt].
  - apply get_ai_personality_enough_questions, Hle.
  - unfold get_ai_personality. cbn [py_len rbind].
    rewrite (seq_split_at (length qs) (length ans) Hlt).
    rewrite (rmap_raises _ _ _ _ IndexError); [reflexivity| |].
    + apply Forall_forall. intros i Hi%list_elem_of_In%in_seq.
      destruct (py_index_list_ok qs i) as [q ->]; [lia|].
      destruct (py_index_list_ok ans i) as [a ->]; [lia|].
      eexists. reflexivity.
    + cbn [py_index].
      rewrite (proj2 (nth_error_None qs (length qs))) by lia. reflexivity.
Qed.

Lemma bind_lift_ok {A B : Type} (a : A) (k : A -> M B) w :
  bind (lift (Ok a)) k w = k a w.
Proof. reflexivity. Qed.

Lemma bind_lift_raise {A B : Type} e (k : A -> M B) w :
  bind (lift (Raise e)) k w = (Raise e, w).
Proof. reflexivity. Qed.

(** X13. [evaluate_builder] on lists with at most as many answers as
    questions: it logs one engine run; when the client returns a
    dictionary, the evaluation holds the skill match of the two stacks, the
    answer quality, the readiness computed from these two, and the three
    texts of the dictionary, by default "unknown" and twice the empty
    text; when the client returns another value it raises AttributeError;
    when the client raises, so does [evaluate_builder]. *)
Theorem evaluate_builder_outcome
    (idea : Idea.t) (builder : Builder.t) (qs ans : list pyval)
    (ext : result pyval) (w : world) :
  (length ans <= length qs)%nat ->
  evaluate_builder idea builder (PList qs) (PList ans) ext w
  = (match ext with
     | Ok (PDict p) =>
         let s := skill_match_rule (as_pylist (Idea.tech_stack idea))
                                   (as_pylist (Builder.tech_stack builder)) in
         let a := answer_quality_rule ans in
         Ok (Evaluation.mk
               (compute_final_readiness s a) s a
               (match dict_get p "personality" with Some v => v | None => PStr "unknown" end)
               (match dict_get p "team_fit" with Some v => v | None => PStr EmptyString end)
               (match dict_get p "summary" with Some v => v | None => PStr EmptyString end))
     | Ok _ => Raise AttributeError
     | Raise e => Raise e
     end,
     mkWorld (IDEAS w) (engine_log w ++ [EngineRun (Idea.id idea)])).
Proof.
  intros Hlen.
  pose proof (get_ai_personality_enough_questions qs ans ext Hlen) as Hai.
  unfold evaluate_builder, bind, lift, ret, tell.
  rewrite skill_match_is_rule, answer_quality_is_rule, Hai.
  destruct ext as [[| | | | | |p]|e]; reflexivity.
Qed.

Lemma evaluate_builder_outcome_witness :
  evaluate_builder
    sample_stored_idea
    (Builder.mk (PStr "Ada") (PStr "555-0100") (PStr "ada@example.org")
                ["python"; "rust"] (PInt 4) (PStr EmptyString))
    (PList [PStr "Why Go?"; PStr "Why you?"]) (PList [PStr "idk"])
    sample_personality initial
  = (Ok (Evaluation.mk
           (compute_final_readiness
              (skill_match_rule (as_pylist ["Python"; "Go"]) (as_pylist ["python"; "rust"]))
              (answer_quality_rule [PStr "idk"]))
           (skill_match_rule (as_pylist ["Python"; "Go"]) (as_pylist ["python"; "rust"]))
           (answer_quality_rule [PStr "idk"])
           (PStr "pragmatic") (PStr "Fits a small team.") (PStr EmptyString)),
     mkWorld [] [EngineRun 1]).
Proof.
  apply (evaluate_builder_outcome
           sample_stored_idea
           (Builder.mk (PStr "Ada") (PStr "555-0100") (PStr "ada@example.org")
                       ["python"; "rust"] (PInt 4) (PStr EmptyString))
           [PStr "Why Go?"; PStr "Why you?"] [PStr "idk"] sample_personality initial).
  cbn [length]. lia.
Defined.

(** *** Field validation *)

Lemma missing_fields_dict (required : list string) (d : list (string * pyval)) :
  missing_fields required (PDict d) = Ok (absent_fields required d).
Proof.
  induction required as [|f rest IH]; [reflexivity|].
  cbn [missing_fields py_contains rbind absent_fields List.filter].
  rewrite IH. cbn [rbind]. fold (absent_fields rest d).
  destruct (dict_get d f); reflexivity.
Qed.

Lemma nonempty_length {A : Type} (l : list A) :
  l <> [] -> negb (Nat.eqb (length l) 0) = true.
Proof. destruct l; [contradiction | reflexivity]. Qed.

(** X14. A request that lacks required fields is answered with
    "Missing fields" and the missing names in the order of the list of
    required fields, and the state is unchanged: for [post_idea] always, for
    [submit_interest] when the idea exists. *)
Theorem missing_fields_rejected
    (d : list (string * pyval)) (w : world) (idea_id : Z) (idx : nat)
    (ext : result pyval) :
  (absent_fields idea_required_fields d <> [] ->
   serve (PostIdea (PDict d)) w
   = (MissingFields (absent_fields idea_required_fields d), w))
  /\ (find_idea_index idea_id (IDEAS w) = Some idx ->
      absent_fields interest_required_fields d <> [] ->
      serve (SubmitInterest idea_id (PDict d) ext) w
      = (MissingFields (absent_fields interest_required_fields d), w)).
Proof.
  split.
  - intros Hne. unfold serve. cbn [handle]. unfold post_idea.
    rewrite missing_fields_dict, bind_lift_ok, (nonempty_length _ Hne).
    destruct w. reflexivity.
  - intros Hfind Hne. unfold serve. cbn [handle]. unfold submit_interest.
    rewrite bind_get_ideas, Hfind.
    rewrite missing_fields_dict, bind_lift_ok, (nonempty_length _ Hne).
    destruct w. reflexivity.
Qed.

(** *** What the handlers do, in more detail *)

Lemma post_idea_outcome data w :
  (exists r, post_idea data w = (r, w) /\ 400 <= status (reply r))
  \/ (exists idea,
        post_idea data w
        = (Ok (IdeaCreated idea), mkWorld (IDEAS w ++ [idea]) (engine_log w))
        /\ team_consistent idea
        /\ Idea.generated_questions idea = PList []
        /\ Idea.interests idea = []).
Proof.
  unfold post_idea. run_handler;
    try (left; eexists; split; [reflexivity | cbn [reply status]; lia]).
  right. eexists. split; [reflexivity|]. split; [|split; reflexivity].
  unfold team_consistent, team_total. cbn [Idea.team_requirements Idea.required_team_size].
  repeat (progress (use_known; cbn [rbind])). f_equal. apply Z.eqb_eq.
  match goal with
  | H : negb ?b = false |- _ => destruct b; [reflexivity | discriminate]
  end.
Qed.

Lemma submit_interest_outcome idea_id data ext w :
  (exists r log, submit_interest idea_id data ext w = (r, mkWorld (IDEAS w) log)
                 /\ 400 <= status (reply r))
  \/ (exists idx idea x,
        find_idea_index idea_id (IDEAS w) = Some idx
        /\ IDEAS w !! idx = Some idea
        /\ submit_interest idea_id data ext w
           = (Ok (InterestRecorded x),
              mkWorld (<[idx := Idea.append_interest x idea]> (IDEAS w))
                      (engine_log w ++ [EngineRun idea_id]))
        /\ evaluation_consistent idea x
        /\ py_len (Idea.generated_questions idea) = py_len (Interest.answers x)).
Proof.
  destruct w as [ideas log]. unfold submit_interest. rewrite bind_get_ideas.
  cbn [IDEAS engine_log].
  destruct (find_idea_index idea_id ideas) as [idx|] eqn:Hfind.
  2: { left. exists (Ok IdeaNotFound), log.
       split; [reflexivity | cbn [reply status]; lia]. }
  destruct (find_idea_index_Some _ _ _ Hfind) as (idea & Hl & Hid).
  subst idea_id.
  run_handler;
    try (left; do 2 eexists; split; [reflexivity | cbn [reply status]; lia]).
  right. exists idx, idea. eexists.
  split; [reflexivity|]. split; [exact Hl|]. split; [reflexivity|].
  split.
  - unfold evaluation_consistent.
    cbn [Interest.builder Interest.answers Interest.evaluation Builder.tech_stack
         Evaluation.skill_match_ratio Evaluation.answer_quality Evaluation.readiness_score].
    repeat split; assumption.
  - cbn [Interest.answers]. use_known. f_equal.
    match goal with
    | H : negb (Nat.eqb ?a ?b) = false |- ?a = ?b =>
        apply Nat.eqb_eq; destruct (Nat.eqb a b); [reflexivity | discriminate]
    end.
Qed.

Lemma gen_q_outcome idea_id ext w :
  match find_idea_index idea_id (IDEAS w) with
  | None => gen_q idea_id ext w = (Ok IdeaNotFound, w)
  | Some idx =>
      exists idea,
        IDEAS w !! idx = Some idea
        /\ Idea.id idea = idea_id
        /\ gen_q idea_id ext w
           = match ext with
             | Ok q => (Ok (QuestionsGenerated q),
                        mkWorld (<[idx := Idea.set_generated_questions q idea]> (IDEAS w))
                                (engine_log w))
             | Raise e => (Raise e, w)
             end
  end.
Proof.
  unfold gen_q. rewrite bind_get_ideas.
  destruct (find_idea_index idea_id (IDEAS w)) as [idx|] eqn:Hfind; [|reflexivity].
  destruct (find_idea_index_Some _ _ _ Hfind) as (idea & Hl & Hid).
  exists idea. split; [exact Hl|]. split; [exact Hid|].
  destruct w as [ideas log]. cbn [IDEAS] in Hl.
  run_handler; reflexivity.
Qed.

(** One request, seen from the store: nothing changes, or an idea is
    appended, or the questions of one idea are replaced, or one interest
    is appended to one idea. *)
Lemma serve_store_step r w :
  (IDEAS (snd (serve r w)) = IDEAS w /\ created_idea (fst (serve r w)) = []
   /\ 400 <= status (fst (serve r w)))
  \/ (exists idea,
        fst (serve r w) = IdeaCreated idea
        /\ IDEAS (snd (serve r w)) = IDEAS w ++ [idea]
        /\ team_consistent idea
        /\ Idea.generated_questions idea = PList []
        /\ Idea.interests idea = [])
  \/ (exists idx idea q,
        IDEAS w !! idx = Some idea
        /\ fst (serve r w) = QuestionsGenerated q
        /\ IDEAS (snd (serve r w))
           = <[idx := Idea.set_generated_questions q idea]> (IDEAS w))
  \/ (exists idx idea x,
        IDEAS w !! idx = Some idea
        /\ fst (serve r w) = InterestRecorded x
        /\ IDEAS (snd (serve r w)) = <[idx := Idea.append_interest x idea]> (IDEAS w)
        /\ evaluation_consistent idea x).
Proof.
  unfold serve. destruct r as [data|target ext|target data ext]; cbn [handle fst snd].
  - destruct (post_idea_outcome data w) as [(r & -> & Hr)|(idea & -> & Hteam & Hq & Hi)];
      cbn [fst snd reply IDEAS].
    + left. split; [reflexivity|]. split; [|exact Hr].
      destruct r as [[]|e]; cbn [reply created_idea status] in *; try reflexivity; lia.
    + right. left. exists idea. auto.
  - pose proof (gen_q_outcome target ext w) as H.
    destruct (find_idea_index target (IDEAS w)) as [idx|].
    + destruct H as (idea & Hl & _ & ->). destruct ext as [q|e]; cbn [fst snd reply IDEAS].
      * right. right. left. exists idx, idea, q. auto.
      * left. cbn. split; [reflexivity|]. split; [reflexivity | lia].
    + rewrite H. left. cbn. split; [reflexivity|]. split; [reflexivity | lia].
  - destruct (submit_interest_outcome target data ext w)
      as [(r & log & -> & Hr)|(idx & idea & x & _ & Hl & -> & Hev & _)];
      cbn [fst snd reply IDEAS].
    + left. split; [reflexivity|]. split; [|exact Hr].
      destruct r as [[]|e]; cbn [reply created_idea status] in *; try reflexivity; lia.
    + right. right. right. exists idx, idea, x. auto.
Qed.

Lemma serve_all_invariant (P : list Idea.t -> Prop) :
  (forall r w, P (IDEAS w) -> P (IDEAS (snd (serve r w)))) ->
  forall rs w, P (IDEAS w) -> P (IDEAS (snd (serve_all rs w))).
Proof.
  intros Hstep rs. induction rs as [|r rs IH]; intros w Hw; [exact Hw|].
  rewrite serve_all_cons. cbn [snd]. apply IH, Hstep, Hw.
Qed.

(** X15. A request answered with a status of 400 or more (400, 404
    or 500) leaves the store of ideas as it was. *)
Theorem failed_request_keeps_store (r : request) (w : world) :
  400 <= status (fst (serve r w)) -> IDEAS (snd (serve r w)) = IDEAS w.
Proof.
  intros Hfail.
  destruct (serve_store_step r w)
    as [(H & _)|[(idea & Hr & _)|[(idx & idea & q & _ & Hr & _)|(idx & idea & x & _ & Hr & _)]]];
    [exact H | | |]; rewrite Hr in Hfail; cbn [status] in Hfail; lia.
Qed.

Lemma failed_request_keeps_store_witness :
  IDEAS (snd (serve (SubmitInterest 7 (PInt 3) (Raise KeyError)) sample_world))
  = IDEAS sample_world.
Proof.
  apply (failed_request_keeps_store (SubmitInterest 7 (PInt 3) (Raise KeyError)) sample_world).
  vm_compute. discriminate.
Defined.

(** *** The roles of every stored idea add up to its team size *)

Lemma team_consistent_questions q idea :
  team_consistent idea -> team_consistent (Idea.set_generated_questions q idea).
Proof. intros H. exact H. Qed.

Lemma team_consistent_interest x idea :
  team_consistent idea -> team_consistent (Idea.append_interest x idea).
Proof. intros H. exact H. Qed.

(** X16. In every state reached from the empty store, the counts of
    the roles of each stored idea, converted as [post_idea] converts them,
    add up to its required team size. *)
Theorem stored_team_sizes_add_up (rs : list request) :
  Forall team_consistent (IDEAS (snd (serve_all rs initial))).
Proof.
  apply (serve_all_invariant (Forall team_consistent)); [|constructor].
  clear. intros r w Hinv.
  destruct (serve_store_step r w)
    as [(-> & _)|[(idea & _ & -> & Hteam & _)
                 |[(idx & idea & q & Hl & _ & ->)|(idx & idea & x & Hl & _ & -> & _)]]].
  - exact Hinv.
  - apply Forall_app. split; [exact Hinv | constructor; [exact Hteam | constructor]].
  - apply Forall_insert; [exact Hinv|]. apply team_consistent_questions.
    exact (proj1 (Forall_lookup _ _) Hinv idx idea Hl).
  - apply Forall_insert; [exact Hinv|]. apply team_consistent_interest.
    exact (proj1 (Forall_lookup _ _) Hinv idx idea Hl).
Qed.




(** *** Stored evaluations are what the scorers give *)

Lemma evaluation_consistent_questions q idea x :
  evaluation_consistent idea x ->
  evaluation_consistent (Idea.set_generated_questions q idea) x.
Proof. intros H. exact H. Qed.

Lemma evaluation_consistent_interest y idea x :
  evaluation_consistent idea x ->
  evaluation_consistent (Idea.append_interest y idea) x.
Proof. intros H. exact H. Qed.

(** X18. In every state reached from the empty store, the evaluation
    stored with each interest is what the scorers give for the stack of its
    idea, the stack of its builder and its answers, and its readiness is
    computed from its own two scores. *)
Theorem stored_evaluations_consistent (rs : list request) :
  Forall (fun idea => Forall (evaluation_consistent idea) (Idea.interests idea))
         (IDEAS (snd (serve_all rs initial))).
Proof.
  apply (serve_all_invariant
           (Forall (fun idea => Forall (evaluation_consistent idea) (Idea.interests idea))));
    [|constructor].
  clear. intros r w Hinv.
  destruct (serve_store_step r w)
    as [(-> & _)|[(idea & _ & -> & _ & _ & Hempty)
                 |[(idx & idea & q & Hl & _ & ->)|(idx & idea & x & Hl & _ & -> & Hx)]]].
  - exact Hinv.
  - apply Forall_app. split; [exact Hinv|].
    constructor; [rewrite Hempty; constructor | constructor].
  - apply Forall_insert; [exact Hinv|].
    pose proof (proj1 (Forall_lookup _ _) Hinv idx idea Hl) as Hidea.
    cbn [Idea.set_generated_questions Idea.interests].
    eapply Forall_impl; [exact Hidea|]. intros y. apply evaluation_consistent_questions.
  - apply Forall_insert; [exact Hinv|].
    pose proof (proj1 (Forall_lookup _ _) Hinv idx idea Hl) as Hidea.
    cbn [Idea.append_interest Idea.interests].
    apply Forall_app. split.
    + eapply Forall_impl; [exact Hidea|]. intros y. apply evaluation_consistent_interest.
    + constructor; [apply evaluation_consistent_interest, Hx | constructor].
Qed.

(** *** The store only grows *)

Lemma same_attributes_refl idea : same_attributes idea idea.
Proof. repeat split. Qed.

Lemma idea_extends_refl idea : idea_extends idea idea.
Proof. split; [apply same_attributes_refl|]. exists []. symmetry. apply app_nil_r. Qed.

Lemma idea_extends_trans a b c :
  idea_extends a b -> idea_extends b c -> idea_extends a c.
Proof.
  intros [Hab [l1 H1]] [Hbc [l2 H2]]. split.
  - unfold same_attributes in *.
    destruct Hab as (? & ? & ? & ? & ? & ? & ? & ? & ?).
    destruct Hbc as (? & ? & ? & ? & ? & ? & ? & ? & ?).
    repeat split; congruence.
  - exists (l1 ++ l2). rewrite H2, H1, app_assoc. reflexivity.
Qed.

Lemma Forall2_idea_extends_refl ideas : Forall2 idea_extends ideas ideas.
Proof. induction ideas; constructor; [apply idea_extends_refl | assumption]. Qed.

Lemma Forall2_idea_extends_trans l1 l2 l3 :
  Forall2 idea_extends l1 l2 -> Forall2 idea_extends l2 l3 ->
  Forall2 idea_extends l1 l3.
Proof.
  intros H. revert l3. induction H as [|a b l1 l2 Hab _ IH]; intros l3 H23.
  - apply Forall2_nil_inv_l in H23 as ->. constructor.
  - apply Forall2_cons_inv_l in H23 as (c & l3' & Hbc & H23 & ->).
    constructor; [eapply idea_extends_trans; eassumption | apply IH, H23].
Qed.

Lemma Forall2_idea_extends_insert ideas idx idea idea' :
  ideas !! idx = Some idea -> idea_extends idea idea' ->
  Forall2 idea_extends ideas (<[idx := idea']> ideas).
Proof.
  revert idx. induction ideas as [|i rest IH]; intros [|idx] Hl He;
    try discriminate; cbn in *.
  - injection Hl as ->. constructor; [exact He | apply Forall2_idea_extends_refl].
  - constructor; [apply idea_extends_refl | apply IH; assumption].
Qed.

Lemma serve_extends r w :
  exists kept,
    IDEAS (snd (serve r w)) = kept ++ created_idea (fst (serve r w))
    /\ Forall2 idea_extends (IDEAS w) kept.
Proof.
  destruct (serve_store_step r w)
    as [(-> & -> & _)|[(idea & -> & -> & _)
                     |[(idx & idea & q & Hl & -> & ->)|(idx & idea & x & Hl & -> & -> & _)]]];
    cbn [created_idea].
  - exists (IDEAS w). split; [symmetry; apply app_nil_r | apply Forall2_idea_extends_refl].
  - exists (IDEAS w). split; [reflexivity | apply Forall2_idea_extends_refl].
  - eexists. split; [symmetry; apply app_nil_r|].
    apply (Forall2_idea_extends_insert _ _ idea); [exact Hl|].
    split; [repeat split | exists []; symmetry; apply app_nil_r].
  - eexists. split; [symmetry; apply app_nil_r|].
    apply (Forall2_idea_extends_insert _ _ idea); [exact Hl|].
    split; [repeat split | exists [x]; reflexivity].
Qed.

Lemma serve_all_extends rs w :
  store_extends (IDEAS w) (created_ideas (fst (serve_all rs w)))
                (IDEAS (snd (serve_all rs w))).
Proof.
  revert w. induction rs as [|r rs IH]; intros w.
  - exists (IDEAS w), []. cbn. rewrite app_nil_r.
    split; [reflexivity|]. split; [apply Forall2_idea_extends_refl | constructor].
  - rewrite serve_all_cons. cbn [fst snd created_ideas flat_map].
    destruct (serve_extends r w) as (kept1 & Hw1 & Hkept1).
    destruct (IH (snd (serve r w))) as (kept & created & Hfinal & Hkept & Hcreated).
    rewrite Hw1 in Hkept. apply Forall2_app_inv_l in Hkept as (k1 & k2 & Hk1 & Hk2 & ->).
    exists k1, (k2 ++ created). split; [rewrite Hfinal, app_assoc; reflexivity|]. split.
    + eapply Forall2_idea_extends_trans; [exact Hkept1 | exact Hk1].
    + apply Forall2_app; assumption.
Qed.

(** X19. The store only grows. After any run of requests, every idea
    of the old store is at its position with the same attributes and its
    old interests at the front of the new ones, followed by the ideas
    announced as created, in the order announced; from the empty store, the
    store is exactly the ideas announced, each extended so. *)
Theorem store_only_grows (rs : list request) (w : world) :
  store_extends (IDEAS w) (created_ideas (fst (serve_all rs w)))
                (IDEAS (snd (serve_all rs w)))
  /\ Forall2 idea_extends (created_ideas (fst (serve_all rs initial)))
                          (IDEAS (snd (serve_all rs initial))).
Proof.
  split; [apply serve_all_extends|].
  destruct (serve_all_extends rs initial) as (kept & created & -> & Hkept & Hcreated).
  cbn [initial IDEAS] in Hkept. apply Forall2_nil_inv_l in Hkept as ->. exact Hcreated.
Qed.

(** *** Looking an idea up by its id *)

Lemma find_from_count k ideas start idea_id :
  idea_ids ideas = count_from start (length ideas) ->
  find_from k ideas idea_id
  = if (start <=? idea_id) && (idea_id <? start + Z.of_nat (length ideas))
    then Some (k + Z.to_nat (idea_id - start))%nat else None.
Proof.
  revert k start. induction ideas as [|i rest IH]; intros k start Hids.
  - cbn [find_from length].
    destruct (Z.leb_spec start idea_id), (Z.ltb_spec idea_id (start + Z.of_nat 0));
      try reflexivity; lia.
  - cbn [length count_from idea_ids fmap list_fmap] in Hids.
    injection Hids as Hi Hrest. cbn [find_from]. rewrite Hi.
    destruct (Z.eqb_spec start idea_id) as [->|Hne].
    + rewrite Z.sub_diag, Nat.add_0_r.
      destruct (Z.leb_spec idea_id idea_id),
               (Z.ltb_spec idea_id (idea_id + Z.of_nat (length (i :: rest))));
        cbn [andb length] in *; try reflexivity; lia.
    + rewrite (IH (S k) (start + 1) Hrest).
      destruct (Z.leb_spec (start + 1) idea_id),
               (Z.ltb_spec idea_id (start + 1 + Z.of_nat (length rest))),
               (Z.leb_spec start idea_id),
               (Z.ltb_spec idea_id (start + Z.of_nat (length (i :: rest))));
        cbn [andb length] in *; try reflexivity; try lia.
      f_equal. lia.
Qed.

(** X20. In every state reached from the empty store,
    [find_idea_index] finds the id [n] at position [n - 1] when
    [1 <= n <= len(IDEAS)], and finds nothing for any other id. *)
Theorem lookup_by_id (rs : list request) (idea_id : Z) :
  find_idea_index idea_id (IDEAS (snd (serve_all rs initial)))
  = if (1 <=? idea_id) && (idea_id <=? Z.of_nat (length (IDEAS (snd (serve_all rs initial)))))
    then Some (Z.to_nat (idea_id - 1)) else None.
Proof.
  destruct (serve_all_run rs initial sequential_ids_nil) as ([Hids _] & _).
  unfold find_idea_index. rewrite (find_from_count 0 _ 1 idea_id Hids).
  destruct (Z.leb_spec 1 idea_id); cbn [andb]; [|reflexivity].
  destruct (Z.ltb_spec idea_id (1 + Z.of_nat (length (IDEAS (snd (serve_all rs initial)))))),
           (Z.leb_spec idea_id (Z.of_nat (length (IDEAS (snd (serve_all rs initial))))));
    try reflexivity; lia.
Qed.

Lemma not_found_replies idea_id data ext w :
  find_idea_index idea_id (IDEAS w) = None ->
  serve (GenerateQuestions idea_id ext) w = (IdeaNotFound, w)
  /\ serve (SubmitInterest idea_id data ext) w = (IdeaNotFound, w).
Proof.
  intros Hfind. unfold serve. cbn [handle]. split.
  - pose proof (gen_q_outcome idea_id ext w) as H. rewrite Hfind in H.
    rewrite H. reflexivity.
  - unfold submit_interest. rewrite bind_get_ideas, Hfind. reflexivity.
Qed.

(** X21. In every state reached from the empty store, a question
    generation or an interest submission for an id outside
    [1 .. len(IDEAS)] is answered "Idea not found" and changes nothing,
    whatever the request body and whatever the client would have returned. *)
Theorem unknown_idea_not_found
    (rs : list request) (idea_id : Z) (data : pyval) (ext : result pyval) :
  ~ (1 <= idea_id <= Z.of_nat (length (IDEAS (snd (serve_all rs initial))))) ->
  serve (GenerateQuestions idea_id ext) (snd (serve_all rs initial))
  = (IdeaNotFound, snd (serve_all rs initial))
  /\ serve (SubmitInterest idea_id data ext) (snd (serve_all rs initial))
     = (IdeaNotFound, snd (serve_all rs initial)).
Proof.
  intros Hout. apply not_found_replies.
  destruct (serve_all_run rs initial sequential_ids_nil) as ([Hids _] & _).
  unfold find_idea_index. rewrite (find_from_count 0 _ 1 idea_id Hids).
  destruct (Z.leb_spec 1 idea_id); cbn [andb]; [|reflexivity].
  destruct (Z.ltb_spec idea_id (1 + Z.of_nat (length (IDEAS (snd (serve_all rs initial))))));
    [lia | reflexivity].
Qed.

Lemma unknown_idea_not_found_witness :
  serve (GenerateQuestions 2 (Raise KeyError))
        (snd (serve_all [PostIdea (sample_idea (PStr "Python, Go"))] initial))
  = (IdeaNotFound, snd (serve_all [PostIdea (sample_idea (PStr "Python, Go"))] initial))
  /\ serve (SubmitInterest 2 (PInt 0) (Raise KeyError))
           (snd (serve_all [PostIdea (sample_idea (PStr "Python, Go"))] initial))
     = (IdeaNotFound, snd (serve_all [PostIdea (sample_idea (PStr "Python, Go"))] initial)).
Proof.
  apply (unknown_idea_not_found [PostIdea (sample_idea (PStr "Python, Go"))] 2
                                (PInt 0) (Raise KeyError)).
  vm_compute. intros [_ H]. apply H. reflexivity.
Defined.

(** *** Generating questions again *)


End Handlers.

Section InterestWithoutQuestions.
Import Binary64.

(** *** An interest in an idea that has no questions yet *)

Lemma py_len_zero_falsy (v : pyval) : py_len v = Ok 0%nat -> py_truth v = false.
Proof.
  destruct v as [| | | |s|l|d]; try discriminate; cbn [py_len py_truth].
  - destruct s; [reflexivity | discriminate].
  - destruct l; [reflexivity | discriminate].
  - destruct d; [reflexivity | discriminate].
Qed.

Lemma readiness_without_answers (s : Q) :
  (compute_final_readiness s 0 <= 3)%Q.
Proof.
  assert (H25 : (round_nd (fl 2.5) 1 <= 3)%Q) by (rewrite round1_of_2_5; lra).
  assert (H30 : (round_nd (fl 3.0) 1 <= 3)%Q) by (rewrite round1_of_3_0; lra).
  unfold compute_final_readiness.
  destruct (Qeq_bool s 0).
  - eapply Qle_trans; [apply round1_capped | exact H25].
  - assert (E : ltb 0 (fl 0.25) = true) by (vm_compute; reflexivity).
    rewrite E. eapply Qle_trans; [apply round1_capped | exact H30].
Qed.

(** X23. An interest recorded for an idea whose questions are the
    empty list has no answers (a value of length 0), the answer quality 0.0
    and a readiness between 0 and 3.0. *)
Theorem interest_without_questions
    (w : world) (idea_id : Z) (data : pyval) (ext : result pyval)
    (idx : nat) (idea : Idea.t) (x : Interest.t) :
  find_idea_index idea_id (IDEAS w) = Some idx ->
  IDEAS w !! idx = Some idea ->
  Idea.generated_questions idea = PList [] ->
  fst (serve (SubmitInterest idea_id data ext) w) = InterestRecorded x ->
  py_len (Interest.answers x) = Ok 0%nat
  /\ Evaluation.answer_quality (Interest.evaluation x) = 0%Q
  /\ (0 <= Evaluation.readiness_score (Interest.evaluation x) <= 3)%Q.
Proof.
  intros Hfind Hl Hq Hresp. unfold serve in Hresp. cbn [handle fst] in Hresp.
  destruct (submit_interest_outcome idea_id data ext w)
    as [(r & log & Hrun & Hr)|(idx' & idea' & x' & Hfind' & Hl' & Hrun & Hev & Hlen)];
    rewrite Hrun in Hresp; cbn [fst reply] in Hresp.
  - rewrite Hresp in Hr. cbn [status] in Hr. lia.
  - injection Hresp as ->.
    assert (idx' = idx) by congruence. subst idx'.
    assert (idea' = idea) by congruence. subst idea'.
    rewrite Hq in Hlen. cbn [py_len length] in Hlen. symmetry in Hlen.
    destruct Hev as (Hs & Ha & Hready).
    unfold compute_answer_quality in Ha.
    rewrite (py_len_zero_falsy _ Hlen) in Ha. cbn [negb] in Ha.
    injection Ha as Ha.
    rewrite skill_match_is_rule in Hs. injection Hs as Hs.
    split; [exact Hlen|]. split; [symmetry; exact Ha|].
    rewrite Hready, <- Ha, <- Hs. split.
    + apply readiness_nonneg; [apply skill_match_rule_unit | lra].
    + apply readiness_without_answers.
Qed.

Lemma interest_without_questions_witness :
  exists x,
    fst (serve (SubmitInterest 1 (PDict (sample_fields (PStr EmptyString))) sample_personality)
               sample_world)
    = InterestRecorded x
    /\ py_len (Interest.answers x) = Ok 0%nat
    /\ Evaluation.answer_quality (Interest.evaluation x) = 0%Q
    /\ (0 <= Evaluation.readiness_score (Interest.evaluation x) <= 3)%Q.
Proof.
  eexists. split; [vm_compute; reflexivity|].
  apply (interest_without_questions
           sample_world 1 (PDict (sample_fields (PStr EmptyString))) sample_personality
           0 sample_stored_idea);
    vm_compute; reflexivity.
Defined.
End InterestWithoutQuestions.
